(** * go-api-example: the account store and its transfer engine

    A shallow embedding of [model/model.go], [storage/postgres.go] and the
    handlers of package [handler], together with the properties of the
    transfer engine, of account creation and of the handlers.

    A monetary value of the program is a [decimal.Decimal], of arbitrary
    precision.  The accounts table is a finite map from the primary key
    [account_id] to the [balance] column, which is [NUMERIC(19, 5)]: a row
    holds a count of 10^-5 units, and a value written to the column is
    rounded to that scale.  Every statement sent to the database may be
    refused by it: which ones are is given by a [Faults] record that the
    operations consult. *)

From stdpp Require Import gmap list sorting strings.

Local Open Scope Z_scope.

(* ===================================================================== *)
(** ** Package [decimal] (github.com/shopspring/decimal)                 *)
(* ===================================================================== *)

Module decimal.

(** The number [value * 10^exp]. *)
Record Decimal := {
  value : Z;
  exp : Z
}.

Definition New (value exp : Z) : Decimal := {| value := value; exp := exp |}.

Definition NewFromInt (n : Z) : Decimal := New n 0.

Definition Zero : Decimal := New 0 1.

(** The digits of [d] at the exponent [e], which is not above its own. *)
Definition rescale (d : Decimal) (e : Z) : Z := value d * 10 ^ (exp d - e).

(** Both operands are brought to the smaller of the two exponents. *)
Definition Add (a b : Decimal) : Decimal :=
  let e := Z.min (exp a) (exp b) in
  {| value := rescale a e + rescale b e; exp := e |}.

Definition Sub (a b : Decimal) : Decimal :=
  let e := Z.min (exp a) (exp b) in
  {| value := rescale a e - rescale b e; exp := e |}.

Definition Cmp (a b : Decimal) : comparison :=
  let e := Z.min (exp a) (exp b) in
  rescale a e ?= rescale b e.

Definition LessThan (a b : Decimal) : bool :=
  match Cmp a b with
  | Lt => true
  | _ => false
  end.

Definition Equal (a b : Decimal) : bool :=
  match Cmp a b with
  | Eq => true
  | _ => false
  end.

Definition IsPositive (a : Decimal) : bool := 0 <? value a.
Definition IsNegative (a : Decimal) : bool := value a <? 0.
Definition IsZero (a : Decimal) : bool := value a =? 0.

End decimal.

(* ===================================================================== *)
(** ** Package [model]                                                   *)
(* ===================================================================== *)

Record Account := {
  AccountID : Z;
  Balance : decimal.Decimal
}.

Record CreateAccountRequest := {
  car_AccountID : Z;
  InitialBalance : decimal.Decimal
}.

Record TransactionRequest := {
  SourceAccountID : Z;
  DestinationAccountID : Z;
  Amount : decimal.Decimal
}.

(* ===================================================================== *)
(** ** The accounts table and the SQL statements of package [storage]    *)
(* ===================================================================== *)

(** [accounts (account_id BIGINT PRIMARY KEY, balance NUMERIC(19, 5))]:
    the balance of a row is its count of 10^-5 units. *)
Abbreviation Table := (gmap Z Z) (only parsing).

(** [n / m] rounded to the nearest integer, a tie going away from zero, as
    PostgreSQL rounds a [numeric]; [m] is positive. *)
Definition round_half_away (n m : Z) : Z :=
  Z.sgn n * ((2 * Z.abs n + m) / (2 * m)).

(** What the column stores of a value written to it: the value rounded to
    five fractional digits, in units of 10^-5. *)
Definition to_column (d : decimal.Decimal) : Z :=
  if -5 <=? decimal.exp d then decimal.value d * 10 ^ (decimal.exp d + 5)
  else round_half_away (decimal.value d) (10 ^ (-5 - decimal.exp d)).

(** What is read of the column into a [decimal.Decimal]. *)
Definition of_column (units : Z) : decimal.Decimal :=
  {| decimal.value := units; decimal.exp := -5 |}.

(** The value has no more than five significant fractional digits: the
    column holds it as it is. *)
Definition at_scale5 (d : decimal.Decimal) : Prop :=
  decimal.Equal (of_column (to_column d)) d = true.

Definition row (kv : Z * Z) : Account :=
  {| AccountID := kv.1; Balance := of_column kv.2 |}.

(** The order of [ORDER BY account_id]. *)
Definition by_account_id (a b : Account) : Prop := AccountID a ≤ AccountID b.

#[global] Instance by_account_id_dec a b : Decision (by_account_id a b).
Proof. unfold by_account_id. apply _. Defined.

#[global] Instance by_account_id_total : Total by_account_id.
Proof. intros a b. unfold by_account_id. lia. Qed.

#[global] Instance by_account_id_trans : Transitive by_account_id.
Proof. intros a b c. unfold by_account_id. lia. Qed.

(** [INSERT INTO accounts (account_id, balance) VALUES ($1, $2)
     ON CONFLICT (account_id) DO NOTHING] *)
Definition insert_do_nothing (id : Z) (bal : decimal.Decimal) (t : Table)
    : Table :=
  match t !! id with
  | Some _ => t
  | None => <[id := to_column bal]> t
  end.

(** [SELECT balance FROM accounts WHERE account_id = $1] *)
Definition select_balance (id : Z) (t : Table) : option decimal.Decimal :=
  of_column <$> t !! id.

(** [SELECT account_id, balance FROM accounts
     WHERE account_id = $1 OR account_id = $2
     ORDER BY account_id FOR UPDATE]: the rows in the order in which they
    are locked and returned. *)
Definition select_for_update (id1 id2 : Z) (t : Table) : list Account :=
  merge_sort by_account_id
    (row <$> filter (λ kv, kv.1 = id1 ∨ kv.1 = id2) (map_to_list t)).

(** [UPDATE accounts SET balance = balance - $1 WHERE account_id = $2]:
    the difference is computed in full and rounded into the column. *)
Definition update_debit (amount : decimal.Decimal) (id : Z) (t : Table)
    : Table :=
  alter (λ balance, to_column (decimal.Sub (of_column balance) amount)) id t.

(** [UPDATE accounts SET balance = balance + $1 WHERE account_id = $2] *)
Definition update_credit (amount : decimal.Decimal) (id : Z) (t : Table)
    : Table :=
  alter (λ balance, to_column (decimal.Add (of_column balance) amount)) id t.

(* ===================================================================== *)
(** ** Errors, faults and the connection                                 *)
(* ===================================================================== *)

(** The statement at which the database failed. *)
Inductive Stage :=
| AtInsert | AtSelect
| AtBegin | AtQuery | AtScan | AtDebit | AtCredit | AtCommit.

(** [ErrNotFound] and [ErrInsufficientFunds] are the sentinel errors of the
    package; [ErrStore] stands for an error of the driver, wrapped with the
    text of the stage; [ErrTxClosed] is pgx's answer to a statement on a
    transaction that is no longer open. *)
Inductive error :=
| ErrNotFound
| ErrInsufficientFunds
| ErrStore (at_stage : Stage)
| ErrTxClosed.

#[global] Instance Stage_eq_dec : EqDecision Stage.
Proof. solve_decision. Defined.

#[global] Instance error_eq_dec : EqDecision error.
Proof. solve_decision. Defined.

(** What the database does to one call of [ExecuteTransfer].  A statement
    fails when the driver reports an error for it: lost connection, lock
    timeout, cancelled context, a value outside [NUMERIC(19, 5)].
    [rows_cut = Some k]: [rows.Next] reports [false] after [k] rows because
    of a fatal error, which is left in [rows.Err]. [scan_err = Some i]:
    [rows.Scan] fails on the row of index [i]. *)
Record Faults := {
  begin_err : bool;
  query_err : bool;
  rows_cut : option nat;
  scan_err : option nat;
  debit_err : bool;
  credit_err : bool;
  commit_err : bool
}.

Definition no_faults : Faults :=
  {| begin_err := false; query_err := false; rows_cut := None;
     scan_err := None; debit_err := false; credit_err := false;
     commit_err := false |}.

(** The locking read is answered in full. *)
Definition read_ok (f : Faults) : Prop :=
  begin_err f = false ∧ query_err f = false ∧
  rows_cut f = None ∧ scan_err f = None.

(** The two updates and the commit are accepted. *)
Definition write_ok (f : Faults) : Prop :=
  debit_err f = false ∧ credit_err f = false ∧ commit_err f = false.

Definition fault_free (f : Faults) : Prop := read_ok f ∧ write_ok f.

(** The database as one caller sees it: the committed table, which is what
    every other transaction reads; the working copy of the caller's open
    transaction, if any, and the rows it holds locked; and the row locks
    the caller has taken so far, in the order in which it took them. *)
Record Conn := {
  committed : gmap Z Z;
  pending : option (gmap Z Z);
  held : list Z;
  locks_taken : list Z
}.

Definition idle (t : Table) : Conn :=
  {| committed := t; pending := None; held := []; locks_taken := [] |}.

(** No transaction open, after the locks [log] have been taken and given
    back. *)
Definition closed (t : Table) (log : list Z) : Conn :=
  {| committed := t; pending := None; held := []; locks_taken := log |}.

(** The locks a statement takes on the rows [ids]: those not held yet. *)
Definition new_locks (ids : list Z) (c : Conn) : list Z :=
  filter (λ id, id ∉ held c) ids.

(* ===================================================================== *)
(** ** A state and error monad for code that talks to the database       *)
(* ===================================================================== *)

Inductive result (A : Type) :=
| Ok (a : A)
| Err (e : error).
Arguments Ok {A} a.
Arguments Err {A} e.

Definition M (A : Type) : Type := Conn → result A * Conn.

Definition ret {A} (a : A) : M A := λ c, (Ok a, c).

Definition fail {A} (e : error) : M A := λ c, (Err e, c).

Definition bind {A B} (m : M A) (k : A → M B) : M B :=
  λ c, match m c with
       | (Ok a, c') => k a c'
       | (Err e, c') => (Err e, c')
       end.

(** [defer cleanup; body]: [cleanup] runs on every way out of [body]. *)
Definition defer {A} (cleanup : M unit) (body : M A) : M A :=
  λ c, let '(r, c') := body c in (r, (cleanup c').2).

Declare Scope db_scope.
Delimit Scope db_scope with db.
Notation "x <- m ;; k" := (bind m (λ x, k))
  (at level 100, m at next level, right associativity) : db_scope.
Notation "m ;;; k" := (bind m (λ _, k))
  (at level 100, right associativity) : db_scope.
Local Open Scope db_scope.

(* ===================================================================== *)
(** ** The transaction boundary (pgx [Tx])                               *)
(* ===================================================================== *)

Definition Begin (f : Faults) : M unit := λ c,
  if begin_err f then (Err (ErrStore AtBegin), c)
  else (Ok tt, {| committed := committed c; pending := Some (committed c);
                  held := []; locks_taken := locks_taken c |}).

(** A no-op once the transaction has been committed; otherwise the working
    copy is dropped and the locks are released. *)
Definition Rollback : M unit := λ c,
  match pending c with
  | Some _ => (Ok tt, {| committed := committed c; pending := None;
                         held := []; locks_taken := locks_taken c |})
  | None => (Err ErrTxClosed, c)
  end.

(** A commit that fails leaves nothing of the transaction behind. *)
Definition Commit (f : Faults) : M unit := λ c,
  match pending c with
  | Some work =>
      if commit_err f
      then (Err (ErrStore AtCommit),
            {| committed := committed c; pending := None;
               held := []; locks_taken := locks_taken c |})
      else (Ok tt, {| committed := work; pending := None;
                      held := []; locks_taken := locks_taken c |})
  | None => (Err ErrTxClosed, c)
  end.

(** The rows that [rows.Next] hands out. *)
Definition delivered (f : Faults) (rows : list Account) : list Account :=
  match rows_cut f with
  | Some k => take k rows
  | None => rows
  end.

(** [tx.Query] with the locking select: the rows handed out are locked, in
    the order of the result. *)
Definition Query (f : Faults) (id1 id2 : Z) : M (list Account) := λ c,
  match pending c with
  | Some work =>
      if query_err f then (Err (ErrStore AtQuery), c)
      else
        let rows := delivered f (select_for_update id1 id2 work) in
        let locks := new_locks (AccountID <$> rows) c in
        (Ok rows, {| committed := committed c; pending := pending c;
                     held := held c ++ locks;
                     locks_taken := locks_taken c ++ locks |})
  | None => (Err ErrTxClosed, c)
  end.

(** [tx.Exec] with one of the two updates, which is on the row [id]: the
    row, if there is one, is locked unless it is held already. *)
Definition Exec (refused : bool) (at_stage : Stage) (id : Z)
    (stmt : gmap Z Z → gmap Z Z) : M unit := λ c,
  match pending c with
  | Some work =>
      if refused then (Err (ErrStore at_stage), c)
      else
        let locks :=
          new_locks (if bool_decide (is_Some (work !! id)) then [id] else []) c in
        (Ok tt, {| committed := committed c; pending := Some (stmt work);
                   held := held c ++ locks;
                   locks_taken := locks_taken c ++ locks |})
  | None => (Err ErrTxClosed, c)
  end.

(* ===================================================================== *)
(** ** [PostgresStore]                                                   *)
(* ===================================================================== *)

(** The variables of [ExecuteTransfer] that the row loop assigns. *)
Record Locals := {
  sourceAccount : Account;
  foundSource : bool;
  foundDest : bool
}.

(** Their zero values, before the loop. *)
Definition locals0 : Locals :=
  {| sourceAccount := {| AccountID := 0; Balance := decimal.New 0 0 |};
     foundSource := false; foundDest := false |}.

(** The body of the loop, after a successful [rows.Scan] into [acc]. *)
Definition visit (req : TransactionRequest) (acc : Account) (l : Locals) : Locals :=
  let l1 :=
    if AccountID acc =? SourceAccountID req
    then {| sourceAccount := acc; foundSource := true; foundDest := foundDest l |}
    else l in
  if AccountID acc =? DestinationAccountID req
  then {| sourceAccount := sourceAccount l1; foundSource := foundSource l1;
          foundDest := true |}
  else l1.

(** [for rows.Next() { ... }], [i] being the index of the next row. *)
Fixpoint scan_rows (f : Faults) (req : TransactionRequest) (i : nat)
    (rows : list Account) (l : Locals) : M Locals :=
  match rows with
  | [] => ret l
  | acc :: rest =>
      if bool_decide (scan_err f = Some i) then fail (ErrStore AtScan)
      else scan_rows f req (S i) rest (visit req acc l)
  end.

(** The locals once the loop has run over all of [rows]. *)
Definition scanned (req : TransactionRequest) (rows : list Account)
    (l : Locals) : Locals :=
  foldl (λ l acc, visit req acc l) l rows.

(** Whether [rows.Scan] fails on one of [n] rows read from index [i] on. *)
Definition scan_fails (f : Faults) (i n : nat) : bool :=
  match scan_err f with
  | Some k => bool_decide (i ≤ k < i + n)%nat
  | None => false
  end.

Module PostgresStore.

(** Runs on the pool, outside any transaction: the insert is committed on
    its own. *)
Definition CreateAccount (refused : bool) (acc : Account) : M unit := λ c,
  if refused then (Err (ErrStore AtInsert), c)
  else (Ok tt, {| committed := insert_do_nothing (AccountID acc) (Balance acc)
                                 (committed c);
                  pending := pending c; held := held c;
                  locks_taken := locks_taken c |}).

Definition GetAccount (refused : bool) (id : Z) : M Account := λ c,
  if refused then (Err (ErrStore AtSelect), c)
  else match select_balance id (committed c) with
       | Some bal => (Ok {| AccountID := id; Balance := bal |}, c)
       | None => (Err ErrNotFound, c)
       end.

Definition ExecuteTransfer (f : Faults) (req : TransactionRequest) : M unit :=
  Begin f ;;;
  defer Rollback
    (rows <- Query f (SourceAccountID req) (DestinationAccountID req) ;;
     l <- scan_rows f req 0 rows locals0 ;;
     if negb (foundSource l) || negb (foundDest l) then fail ErrNotFound
     else if decimal.LessThan (Balance (sourceAccount l)) (Amount req)
     then fail ErrInsufficientFunds
     else
       Exec (debit_err f) AtDebit (SourceAccountID req)
         (update_debit (Amount req) (SourceAccountID req)) ;;;
       Exec (credit_err f) AtCredit (DestinationAccountID req)
         (update_credit (Amount req) (DestinationAccountID req)) ;;;
       Commit f).

End PostgresStore.

(* ===================================================================== *)
(** ** The contract offered to the request layer, on committed tables    *)
(* ===================================================================== *)

Definition outcome {A} (r : result A) : option error :=
  match r with
  | Ok _ => None
  | Err e => Some e
  end.

(** The error returned, and the table every later reader sees. *)
Definition create_account (refused : bool) (acc : Account) (t : Table)
    : option error * Table :=
  let '(r, c) := PostgresStore.CreateAccount refused acc (idle t) in
  (outcome r, committed c).

Definition get_account (refused : bool) (id : Z) (t : Table) : result Account :=
  (PostgresStore.GetAccount refused id (idle t)).1.

Definition execute_transfer (f : Faults) (req : TransactionRequest) (t : Table)
    : option error * Table :=
  let '(r, c) := PostgresStore.ExecuteTransfer f req (idle t) in
  (outcome r, committed c).

(** The row locks a transfer takes, in the order in which it takes them. *)
Definition lock_order (f : Faults) (req : TransactionRequest) (t : Table)
    : list Z :=
  locks_taken (PostgresStore.ExecuteTransfer f req (idle t)).2.

(** The rows the locking read of a transfer hands out. *)
Definition locked_rows (f : Faults) (req : TransactionRequest) (t : Table)
    : list Account :=
  delivered f (select_for_update (SourceAccountID req) (DestinationAccountID req) t).

(** A sequence of transfers, each with the faults it meets; the errors
    are collected in order. *)
Fixpoint execute_transfers (calls : list (Faults * TransactionRequest))
    (t : Table) : list (option error) * Table :=
  match calls with
  | [] => ([], t)
  | (f, req) :: rest =>
      let '(e, t1) := execute_transfer f req t in
      let '(es, t2) := execute_transfers rest t1 in
      (e :: es, t2)
  end.



(* ===================================================================== *)
(** ** Package [handler]: the transaction handler                        *)
(* ===================================================================== *)

(** The interface [storage.Store], over the state [S] of an implementation. *)
Class Store (S : Type) := {
  CreateAccount : Account → S → option error * S;
  GetAccount : Z → S → result Account * S;
  ExecuteTransfer : TransactionRequest → S → option error * S
}.

(** [PostgresStore] implements it, the state being the committed table. *)
Definition PostgresStore_Store (refused : bool) (f : Faults) : Store (gmap Z Z) :=
  {| CreateAccount := create_account refused;
     GetAccount := λ id t, (get_account refused id t, t);
     ExecuteTransfer := execute_transfer f |}.

(** The [MockStore] of the handler tests, its three functions given; the
    state is the list of the requests [ExecuteTransfer] was called with. *)
Record MockStore := {
  CreateAccountFunc : Account → option error;
  GetAccountFunc : Z → result Account;
  ExecuteTransferFunc : TransactionRequest → option error
}.

Definition MockStore_Store (m : MockStore) : Store (list TransactionRequest) :=
  {| CreateAccount := λ acc calls, (CreateAccountFunc m acc, calls);
     GetAccount := λ id calls, (GetAccountFunc m id, calls);
     ExecuteTransfer := λ req calls, (ExecuteTransferFunc m req, calls ++ [req]) |}.

Definition StatusOK : Z := 200.
Definition StatusBadRequest : Z := 400.
Definition StatusNotFound : Z := 404.
Definition StatusUnprocessableEntity : Z := 422.
Definition StatusInternalServerError : Z := 500.

(** What the handler writes to the [http.ResponseWriter]. *)
Record Response := {
  Code : Z;
  Body : string
}.

(** [http.Error(w, msg, code)] *)
Definition http_Error (msg : string) (code : Z) : Response :=
  {| Code := code; Body := msg |}.

(** [CreateTransactionHandler]; [decoded] is what [json.Decode] made of the
    body, [None] when it returned an error. *)
Definition CreateTransactionHandler {S} `{Store S}
    (decoded : option TransactionRequest) (st : S) : Response * S :=
  match decoded with
  | None => (http_Error "Invalid request body" StatusBadRequest, st)
  | Some req =>
      if SourceAccountID req =? DestinationAccountID req
      then (http_Error "Source and destination accounts cannot be the same"
              StatusBadRequest, st)
      else if negb (decimal.IsPositive (Amount req))
      then (http_Error "Transaction amount must be positive" StatusBadRequest, st)
      else
        let '(err, st') := ExecuteTransfer req st in
        match err with
        | Some ErrInsufficientFunds =>
            (http_Error "Insufficient funds" StatusUnprocessableEntity, st')
        | Some ErrNotFound =>
            (http_Error "One or both accounts not found" StatusNotFound, st')
        | Some _ =>
            (http_Error "Failed to process transaction" StatusInternalServerError, st')
        | None => ({| Code := StatusOK; Body := "" |}, st')
        end
  end.

(* ===================================================================== *)
(** ** Package [handler]: the account handlers                           *)
(* ===================================================================== *)

Definition StatusCreated : Z := 201.

(** [CreateAccountHandler]; [decoded] is what [json.Decode] made of the
    body.  [existingAcc] is [nil] when [GetAccount] returned an error.
    [GetAccount] and [CreateAccount] are two statements of their own:
    [between] is what the other requests do to the store after the first
    and before the second. *)
Definition CreateAccountHandler {S} `{Store S} (between : S → S)
    (decoded : option CreateAccountRequest) (st : S) : Response * S :=
  match decoded with
  | None => (http_Error "Invalid request body" StatusBadRequest, st)
  | Some req =>
      if decimal.IsNegative (InitialBalance req)
      then (http_Error "Initial balance cannot be negative" StatusBadRequest, st)
      else
        let '(got, st1) := GetAccount (car_AccountID req) st in
        let existingAcc := match got with Ok a => Some a | Err _ => None end in
        if match got with
           | Err e => negb (bool_decide (e = ErrNotFound))
           | Ok _ => false
           end
        then (http_Error "Could not check for existing account"
                StatusInternalServerError, st1)
        else
          let acc := {| AccountID := car_AccountID req;
                        Balance := InitialBalance req |} in
          let '(err, st2) := CreateAccount acc (between st1) in
          match err with
          | Some _ =>
              (http_Error "Failed to create account" StatusInternalServerError, st2)
          | None =>
              match existingAcc with
              | None => ({| Code := StatusCreated; Body := "" |}, st2)
              | Some _ => ({| Code := StatusOK; Body := "" |}, st2)
              end
          end
  end.

(** The path variable [account_id] of a GET request: absent from
    [mux.Vars], refused by [strconv.ParseInt], or parsed. *)
Inductive PathID :=
| Missing
| Malformed
| Parsed (id : Z).

(** What [GetAccountHandler] writes: an error text, or the account encoded
    as JSON under the given status. *)
Inductive Written :=
| Plain (r : Response)
| JSON (code : Z) (acc : Account).

Definition written_code (w : Written) : Z :=
  match w with
  | Plain r => Code r
  | JSON code _ => code
  end.

(** [GetAccountHandler]; [encode_err] tells whether [Encode] fails. *)
Definition GetAccountHandler {S} `{Store S}
    (encode_err : bool) (idStr : PathID) (st : S) : Written * S :=
  match idStr with
  | Missing => (Plain (http_Error "Account ID is required" StatusBadRequest), st)
  | Malformed =>
      (Plain (http_Error "Invalid account ID format" StatusBadRequest), st)
  | Parsed accountID =>
      let '(got, st1) := GetAccount accountID st in
      match got with
      | Err e =>
          if bool_decide (e = ErrNotFound)
          then (Plain (http_Error "Account not found" StatusNotFound), st1)
          else (Plain (http_Error "Failed to retrieve account"
                         StatusInternalServerError), st1)
      | Ok account =>
          if encode_err
          then (Plain (http_Error "Failed to encode response"
                         StatusInternalServerError), st1)
          else (JSON StatusOK account, st1)
      end
  end.

(* ===================================================================== *)
(** ** Package [main]: the routes, served over [PostgresStore]           *)
(* ===================================================================== *)

(** What the database does to the store calls of one request. *)
Record StoreFaults := {
  get_refused : bool;
  create_refused : bool;
  transfer_faults : Faults
}.

Definition no_store_faults : StoreFaults :=
  {| get_refused := false; create_refused := false;
     transfer_faults := no_faults |}.

Definition PostgresStore_under (sf : StoreFaults) : Store (gmap Z Z) :=
  {| CreateAccount := create_account (create_refused sf);
     GetAccount := λ id t, (get_account (get_refused sf) id t, t);
     ExecuteTransfer := execute_transfer (transfer_faults sf) |}.

(** The three routes of the router. *)
Inductive Request :=
| POST_accounts (decoded : option CreateAccountRequest)
| GET_accounts_id (idStr : PathID)
| POST_transactions (decoded : option TransactionRequest).

(** One request, served with no other request under way: the status
    answered and the table left. *)
Definition ServeHTTP (sf : StoreFaults) (encode_err : bool) (r : Request)
    (t : Table) : Z * Table :=
  match r with
  | POST_accounts decoded =>
      let '(resp, t') :=
        @CreateAccountHandler _ (PostgresStore_under sf) id decoded t in
      (Code resp, t')
  | GET_accounts_id idStr =>
      let '(w, t') :=
        @GetAccountHandler _ (PostgresStore_under sf) encode_err idStr t in
      (written_code w, t')
  | POST_transactions decoded =>
      let '(resp, t') :=
        @CreateTransactionHandler _ (PostgresStore_under sf) decoded t in
      (Code resp, t')
  end.

Fixpoint serve_all (rs : list (StoreFaults * bool * Request)) (t : Table)
    : list Z * Table :=
  match rs with
  | [] => ([], t)
  | (sf, encode_err, r) :: rest =>
      let '(code, t1) := ServeHTTP sf encode_err r t in
      let '(codes, t2) := serve_all rest t1 in
      (code :: codes, t2)
  end.

(* ===================================================================== *)
(** ** [NewPostgresStore] and [initSchema]                               *)
(* ===================================================================== *)

(** What one round of the retry loop meets: whether [pgxpool.New] returns
    an error and whether [pool.Ping] does. *)
Record Attempt := {
  new_err : bool;
  ping_err : bool
}.

(** The variables [pool] and [err] of [NewPostgresStore], a pool being
    named by the round that made it, and the seconds slept so far. *)
Record Dial := {
  dial_pool : option nat;
  dial_err : bool;
  slept : nat
}.

Definition dial0 : Dial :=
  {| dial_pool := None; dial_err := false; slept := 0 |}.

(** [for ; i < 5; i++ { ... }] with [rounds] rounds left. *)
Fixpoint retry_loop (env : nat → Attempt) (i rounds : nat) (d : Dial) : Dial :=
  match rounds with
  | O => d
  | S rounds' =>
      let a := env i in
      let d1 := {| dial_pool := if new_err a then None else Some i;
                   dial_err := new_err a; slept := slept d |} in
      if negb (new_err a) && negb (ping_err a) then d1
      else retry_loop env (S i) rounds'
             {| dial_pool := dial_pool d1; dial_err := dial_err d1;
                slept := S (slept d) |}
  end.

(** [CREATE TABLE IF NOT EXISTS accounts (...)], the database holding the
    table or not. *)
Definition initSchema (refused : bool) (db : option (gmap Z Z))
    : bool * option (gmap Z Z) :=
  if refused then (true, db)
  else (false, Some (default ∅ db)).

(** What [NewPostgresStore] returns: one of its two wrapped errors, or the
    store, which holds the pool [pool]. *)
Inductive Started :=
| ConnectFailed
| SchemaFailed
| Ready (pool : option nat).

(** The outcome, the database and the seconds slept. *)
Definition NewPostgresStore (env : nat → Attempt) (schema_refused : bool)
    (db : option (gmap Z Z)) : Started * option (gmap Z Z) * nat :=
  let d := retry_loop env 0 5 dial0 in
  if dial_err d then (ConnectFailed, db, slept d)
  else
    let '(failed, db') := initSchema schema_refused db in
    if failed then (SchemaFailed, db', slept d)
    else (Ready (dial_pool d), db', slept d).

(* ===================================================================== *)
(** ** Quantities the properties speak of                                *)
(* ===================================================================== *)

(** What a committed transfer of an amount that the column holds as it is
    adds to the balance of account [id], in units of 10^-5. *)
Definition net_change (req : TransactionRequest) (id : Z) : Z :=
  (if bool_decide (id = DestinationAccountID req)
   then to_column (Amount req) else 0) -
  (if bool_decide (id = SourceAccountID req)
   then to_column (Amount req) else 0).

(** The same for a sequence of calls, given their outcomes: only those
    that returned no error count. *)
Fixpoint net_changes (calls : list (Faults * TransactionRequest))
    (es : list (option error)) (id : Z) : Z :=
  match calls, es with
  | (_, req) :: calls', None :: es' =>
      net_change req id + net_changes calls' es' id
  | _ :: calls', Some _ :: es' => net_changes calls' es' id
  | _, _ => 0
  end.

(** A sequence of creations, each accepted or refused by the database. *)
Fixpoint create_accounts (calls : list (bool * Account)) (t : Table) : Table :=
  match calls with
  | [] => t
  | (refused, acc) :: rest =>
      create_accounts rest (create_account refused acc t).2
  end.

(** The first accepted creation of the sequence that carries [id]. *)
Definition first_created (calls : list (bool * Account)) (id : Z)
    : option Account :=
  snd <$> head (filter (λ c : bool * Account,
                          c.1 = false ∧ AccountID c.2 = id) calls).

(** No balance of the table is negative. *)
Definition no_overdraft (t : Table) : Prop :=
  map_Forall (λ _ bal, 0 ≤ bal) t.

(** A round of the retry loop that ends it: the pool was made and answered
    the ping. *)
Definition round_ok (a : Attempt) : bool :=
  negb (new_err a) && negb (ping_err a).


(* ===================================================================== *)
(** ** Decimals against the scale of the column                          *)
(* ===================================================================== *)

Section column_rounding.
Import decimal.

Lemma pow10_pos k : 0 ≤ k → 0 < 10 ^ k.
Proof. intros. apply Z.pow_pos_nonneg; lia. Qed.

Lemma round_half_away_mul n m : 0 < m → round_half_away (n * m) m = n.
Proof.
  intros Hm. unfold round_half_away.
  rewrite Z.sgn_mul, (Z.sgn_pos m Hm), Z.mul_1_r, Z.abs_mul, (Z.abs_eq m) by lia.
  assert ((2 * (Z.abs n * m) + m) / (2 * m) = Z.abs n) as ->.
  { symmetry. apply (Z.div_unique _ _ _ m); lia. }
  destruct (Z.sgn_spec n) as [[? ->]|[[? ->]|[? ->]]]; lia.
Qed.

Lemma round_half_away_nonneg n m : 0 < m → 0 ≤ n → 0 ≤ round_half_away n m.
Proof.
  intros Hm Hn. unfold round_half_away.
  apply Z.mul_nonneg_nonneg; [destruct (Z.sgn_spec n) as [[? ->]|[[? ->]|[? ->]]]; lia|].
  apply Z.div_pos; lia.
Qed.


Lemma round_half_away_sgn n m : 0 < m → n < 0 → round_half_away n m ≤ 0.
Proof.
  intros Hm Hn. unfold round_half_away. rewrite (Z.sgn_neg n Hn).
  assert (0 ≤ (2 * Z.abs n + m) / (2 * m)) by (apply Z.div_pos; lia). lia.
Qed.

(** The two shapes of a decimal against the scale of the column. *)
Lemma coarse_view a b :
  -5 ≤ exp a →
  to_column a = value a * 10 ^ (exp a + 5) ∧
  Z.min (-5) (exp a) = -5 ∧
  rescale (of_column b) (-5) = b ∧
  rescale a (-5) = to_column a.
Proof.
  intros H. unfold to_column, rescale. simpl.
  destruct (Z.leb_spec (-5) (exp a)); [|lia].
  split_and!; [done|lia|lia|f_equal; f_equal; lia].
Qed.

Lemma fine_view a b :
  exp a < -5 →
  0 < 10 ^ (-5 - exp a) ∧
  to_column a = round_half_away (value a) (10 ^ (-5 - exp a)) ∧
  Z.min (-5) (exp a) = exp a ∧
  rescale (of_column b) (exp a) = b * 10 ^ (-5 - exp a) ∧
  rescale a (exp a) = value a.
Proof.
  intros H. unfold to_column, rescale. simpl.
  destruct (Z.leb_spec (-5) (exp a)); [lia|].
  split_and!; [apply pow10_pos; lia|done|lia|done|].
  rewrite Z.sub_diag. simpl. lia.
Qed.

Lemma to_column_of_column u : to_column (of_column u) = u.
Proof. unfold to_column, of_column. simpl. lia. Qed.

Lemma LessThan_of_column b a :
  LessThan (of_column b) a =
  (rescale (of_column b) (Z.min (-5) (exp a)) <? rescale a (Z.min (-5) (exp a))).
Proof.
  unfold LessThan, Cmp. simpl. unfold Z.ltb.
  by destruct (_ ?= _).
Qed.

Lemma at_scale5_iff a :
  at_scale5 a ↔
  rescale (of_column (to_column a)) (Z.min (-5) (exp a)) =
  rescale a (Z.min (-5) (exp a)).
Proof.
  unfold at_scale5, Equal, Cmp. simpl.
  destruct (Z.compare_spec (rescale (of_column (to_column a)) (Z.min (-5) (exp a)))
                           (rescale a (Z.min (-5) (exp a)))); split; try done; lia.
Qed.

Lemma at_scale5_coarse a : -5 ≤ exp a → at_scale5 a.
Proof.
  intros H. apply at_scale5_iff.
  destruct (coarse_view a (to_column a) H) as (_ & -> & -> & ->). done.
Qed.

Lemma at_scale5_fine a :
  exp a < -5 → at_scale5 a → value a = to_column a * 10 ^ (-5 - exp a).
Proof.
  intros H Hs. apply at_scale5_iff in Hs.
  destruct (fine_view a (to_column a) H) as (_ & _ & Hmin & Hb & Ha).
  rewrite Hmin, Hb, Ha in Hs. done.
Qed.

Lemma LessThan_exact b a :
  at_scale5 a → LessThan (of_column b) a = (b <? to_column a).
Proof.
  intros Hs. rewrite LessThan_of_column.
  destruct (Z.leb_spec (-5) (exp a)) as [H|H].
  - destruct (coarse_view a b H) as (_ & -> & -> & ->). done.
  - pose proof (at_scale5_fine a H Hs) as Hv.
    destruct (fine_view a b H) as (Hm & _ & -> & -> & ->). rewrite Hv.
    destruct (Z.ltb_spec b (to_column a)), (Z.ltb_spec (b * 10 ^ (-5 - exp a))
      (to_column a * 10 ^ (-5 - exp a))); try done; nia.
Qed.

Lemma debit_exact b a :
  at_scale5 a → to_column (Sub (of_column b) a) = b - to_column a.
Proof.
  intros Hs. unfold Sub. simpl.
  destruct (Z.leb_spec (-5) (exp a)) as [H|H].
  - destruct (coarse_view a b H) as (_ & -> & -> & ->).
    unfold to_column. simpl. lia.
  - pose proof (at_scale5_fine a H Hs) as Hv.
    destruct (fine_view a b H) as (Hm & _ & -> & -> & ->).
    unfold to_column at 1. simpl.
    destruct (Z.leb_spec (-5) (exp a)); [lia|].
    rewrite Hv at 1. rewrite <-Z.mul_sub_distr_r.
    by apply round_half_away_mul.
Qed.

Lemma credit_exact b a :
  at_scale5 a → to_column (Add (of_column b) a) = b + to_column a.
Proof.
  intros Hs. unfold Add. simpl.
  destruct (Z.leb_spec (-5) (exp a)) as [H|H].
  - destruct (coarse_view a b H) as (_ & -> & -> & ->).
    unfold to_column. simpl. lia.
  - pose proof (at_scale5_fine a H Hs) as Hv.
    destruct (fine_view a b H) as (Hm & _ & -> & -> & ->).
    unfold to_column at 1. simpl.
    destruct (Z.leb_spec (-5) (exp a)); [lia|].
    rewrite Hv at 1. rewrite <-Z.mul_add_distr_r.
    by apply round_half_away_mul.
Qed.

Lemma debit_nonneg b a :
  LessThan (of_column b) a = false → 0 ≤ to_column (Sub (of_column b) a).
Proof.
  rewrite LessThan_of_column. intros Hge%Z.ltb_ge. revert Hge.
  unfold Sub. simpl.
  destruct (Z.leb_spec (-5) (exp a)) as [H|H].
  - destruct (coarse_view a b H) as (_ & -> & -> & ->).
    unfold to_column at 2. simpl. lia.
  - destruct (fine_view a b H) as (Hm & _ & -> & -> & ->). intros Hge.
    unfold to_column. simpl.
    destruct (Z.leb_spec (-5) (exp a)); [lia|].
    apply round_half_away_nonneg; [done|lia].
Qed.

Lemma to_column_nonneg a : 0 ≤ value a → 0 ≤ to_column a.
Proof.
  intros Hv. unfold to_column. destruct (Z.leb_spec (-5) (exp a)).
  - apply Z.mul_nonneg_nonneg; [done|]. apply Z.pow_nonneg. lia.
  - apply round_half_away_nonneg; [apply pow10_pos; lia|done].
Qed.

Lemma credit_nonneg b a :
  0 ≤ b → IsNegative a = false → 0 ≤ to_column (Add (of_column b) a).
Proof.
  unfold IsNegative. intros Hb Ha%Z.ltb_ge. apply to_column_nonneg.
  unfold Add, rescale. simpl.
  apply Z.add_nonneg_nonneg; apply Z.mul_nonneg_nonneg; try done;
    apply Z.pow_nonneg; lia.
Qed.

Lemma IsZero_at_scale5 a : IsZero a = true → at_scale5 a ∧ to_column a = 0.
Proof.
  unfold IsZero. intros Hz%Z.eqb_eq.
  assert (to_column a = 0) as H0.
  { unfold to_column, round_half_away. rewrite Hz.
    by destruct (-5 <=? exp a). }
  split; [|done]. apply at_scale5_iff. rewrite H0. unfold rescale. simpl.
  rewrite Hz. lia.
Qed.

Lemma Equal_of_column a u :
  Equal a (of_column u) = true → at_scale5 a ∧ to_column a = u.
Proof.
  unfold Equal, Cmp. simpl. rewrite Z.min_comm.
  destruct (Z.compare_spec (rescale a (Z.min (-5) (exp a)))
              (rescale (of_column u) (Z.min (-5) (exp a)))) as [Heq| |];
    [intros _|done..].
  destruct (Z.leb_spec (-5) (exp a)) as [H|H].
  - split; [by apply at_scale5_coarse|].
    destruct (coarse_view a u H) as (_ & Hmin & Hu & Ha).
    rewrite Hmin, Hu, Ha in Heq. done.
  - destruct (fine_view a u H) as (Hm & Hc & Hmin & Hu & Ha).
    rewrite Hmin, Hu, Ha in Heq.
    assert (to_column a = u) as Hcol.
    { rewrite Hc, Heq. by apply round_half_away_mul. }
    split; [|done]. apply at_scale5_iff.
    destruct (fine_view a (to_column a) H) as (_ & _ & -> & -> & ->).
    by rewrite Hcol.
Qed.


Lemma IsPositive_exact a :
  at_scale5 a → IsPositive a = (0 <? to_column a).
Proof.
  intros Hs. unfold IsPositive.
  destruct (Z.leb_spec (-5) (exp a)) as [H|H].
  - destruct (coarse_view a 0 H) as (-> & _).
    pose proof (pow10_pos (exp a + 5) ltac:(lia)).
    destruct (Z.ltb_spec 0 (value a)), (Z.ltb_spec 0 (value a * 10 ^ (exp a + 5)));
      try done; nia.
  - pose proof (at_scale5_fine a H Hs) as Hv.
    pose proof (pow10_pos (-5 - exp a) ltac:(lia)).
    destruct (Z.ltb_spec 0 (value a)), (Z.ltb_spec 0 (to_column a));
      try done; nia.
Qed.

Lemma LessThan_zero b a :
  IsZero a = true → LessThan (of_column b) a = (b <? 0).
Proof.
  intros Hz. destruct (IsZero_at_scale5 a Hz) as [Hs H0].
  by rewrite (LessThan_exact b a Hs), H0.
Qed.

Lemma Add_of_column b u : Add (of_column b) (of_column u) = of_column (b + u).
Proof.
  unfold Add, of_column, rescale. cbn [value exp].
  change (Z.min (-5) (-5)) with (-5). change (10 ^ (-5 - -5)) with 1.
  f_equal. lia.
Qed.

Lemma at_scale5_of_column u : at_scale5 (of_column u).
Proof. by apply at_scale5_coarse. Qed.

End column_rounding.

(* ===================================================================== *)
(** ** The locking select                                                *)
(* ===================================================================== *)

Lemma elem_of_select_for_update id1 id2 (t : gmap Z Z) acc :
  acc ∈ select_for_update id1 id2 t ↔
  (∃ bal, t !! AccountID acc = Some bal ∧ Balance acc = of_column bal) ∧
  (AccountID acc = id1 ∨ AccountID acc = id2).
Proof.
  unfold select_for_update. rewrite merge_sort_Permutation, list_elem_of_fmap.
  split.
  - intros [[k v] [-> Hin]]. apply list_elem_of_filter in Hin as [Hp Hin].
    apply elem_of_map_to_list in Hin. simpl in *. split; [by exists v|done].
  - intros [(bal & Hl & Hbal) Hid]. exists (AccountID acc, bal). split.
    + destruct acc. simpl in *. by subst.
    + apply list_elem_of_filter. split; [done|]. by apply elem_of_map_to_list.
Qed.

Lemma select_for_update_sorted id1 id2 (t : gmap Z Z) :
  StronglySorted by_account_id (select_for_update id1 id2 t).
Proof. apply StronglySorted_merge_sort; apply _. Qed.

(** The primary key: no two rows of a result carry the same id. *)
Lemma select_for_update_key id1 id2 (t : gmap Z Z) a b :
  a ∈ select_for_update id1 id2 t → b ∈ select_for_update id1 id2 t →
  AccountID a = AccountID b → a = b.
Proof.
  intros [(x & Ha & Hx) _]%elem_of_select_for_update
         [(y & Hb & Hy) _]%elem_of_select_for_update E.
  rewrite E in Ha. destruct a, b; simpl in *. congruence.
Qed.

Lemma select_for_update_NoDup id1 id2 (t : gmap Z Z) :
  NoDup (select_for_update id1 id2 t).
Proof.
  unfold select_for_update. rewrite merge_sort_Permutation.
  apply NoDup_fmap_2_strong.
  - intros [k1 v1] [k2 v2] _ _ E. by inversion E.
  - apply NoDup_filter, NoDup_map_to_list.
Qed.

Lemma select_for_update_comm id1 id2 (t : gmap Z Z) :
  select_for_update id1 id2 t = select_for_update id2 id1 t.
Proof.
  unfold select_for_update. do 2 f_equal.
  apply list_filter_iff. intros kv. tauto.
Qed.

(** Rows earlier in a result have the smaller id. *)
Lemma select_for_update_ascending id1 id2 (t : gmap Z Z) (i j : nat) a b :
  select_for_update id1 id2 t !! i = Some a →
  select_for_update id1 id2 t !! j = Some b →
  (i < j)%nat → AccountID a < AccountID b.
Proof.
  intros Ha Hb Hij.
  assert (by_account_id a b) as Hle.
  { pose proof (select_for_update_sorted id1 id2 t) as Hs.
    revert i j Ha Hb Hij. induction Hs as [|x l Hs IH Hx]; intros i j Ha Hb Hij.
    - by rewrite lookup_nil in Ha.
    - destruct j as [|j]; [lia|]. destruct i as [|i]; simpl in *.
      + injection Ha as <-. rewrite Forall_forall in Hx.
        apply Hx. by eapply list_elem_of_lookup_2.
      + apply (IH i j); [done..|lia]. }
  unfold by_account_id in Hle.
  destruct (decide (AccountID a = AccountID b)) as [E|]; [|lia].
  assert (a = b) as ->.
  { eapply select_for_update_key; [..|exact E]; by eapply list_elem_of_lookup_2. }
  pose proof (NoDup_lookup _ _ _ _ (select_for_update_NoDup id1 id2 t) Ha Hb). lia.
Qed.

Lemma elem_of_delivered f rows acc : acc ∈ delivered f rows → acc ∈ rows.
Proof.
  unfold delivered. destruct (rows_cut f) as [k|]; [|done].
  intros H. eapply elem_of_sublist; [done|apply sublist_take].
Qed.

Lemma lookup_delivered f rows (i : nat) acc :
  delivered f rows !! i = Some acc → rows !! i = Some acc.
Proof.
  unfold delivered. destruct (rows_cut f) as [k|]; [|done].
  by intros [? _]%lookup_take_Some.
Qed.

(* ===================================================================== *)
(** ** The row loop                                                      *)
(* ===================================================================== *)

Lemma scan_rows_run f req rows : ∀ i l c,
  scan_rows f req i rows l c =
  if scan_fails f i (length rows) then (Err (ErrStore AtScan), c)
  else (Ok (scanned req rows l), c).
Proof.
  unfold scan_fails.
  induction rows as [|acc rest IH]; intros i l c; simpl.
  - destruct (scan_err f); [|done]. rewrite bool_decide_eq_false_2; [done|lia].
  - case_bool_decide as Hi.
    + rewrite Hi. rewrite bool_decide_eq_true_2; [done|lia].
    + rewrite IH. destruct (scan_err f) as [k|]; [|done].
      assert (k ≠ i) by congruence.
      apply (f_equal (λ b : bool, if b then _ else _)).
      apply bool_decide_ext. lia.
Qed.

Lemma scanned_cons req a rest l :
  scanned req (a :: rest) l = scanned req rest (visit req a l).
Proof. reflexivity. Qed.

Lemma scanned_foundSource req rows : ∀ l,
  foundSource (scanned req rows l) = true ↔
  foundSource l = true ∨ ∃ acc, acc ∈ rows ∧ AccountID acc = SourceAccountID req.
Proof.
  induction rows as [|a rest IH]; intros l.
  - simpl. split; [auto|]. intros [?|(? & []%elem_of_nil & _)]; done.
  - rewrite scanned_cons, IH. unfold visit.
    destruct (Z.eqb_spec (AccountID a) (SourceAccountID req)) as [E|NE];
      destruct (AccountID a =? DestinationAccountID req); simpl.
    all: split; [intros [?|(x & Hx & Ex)]|intros [?|(x & Hx & Ex)]].
    all: try (apply elem_of_cons in Hx as [->|Hx]).
    all: try done; eauto using list_elem_of_here, list_elem_of_further.
Qed.

Lemma scanned_foundDest req rows : ∀ l,
  foundDest (scanned req rows l) = true ↔
  foundDest l = true ∨ ∃ acc, acc ∈ rows ∧ AccountID acc = DestinationAccountID req.
Proof.
  induction rows as [|a rest IH]; intros l.
  - simpl. split; [auto|]. intros [?|(? & []%elem_of_nil & _)]; done.
  - rewrite scanned_cons, IH. unfold visit.
    destruct (Z.eqb_spec (AccountID a) (DestinationAccountID req)) as [E|NE];
      destruct (AccountID a =? SourceAccountID req); simpl.
    all: split; [intros [?|(x & Hx & Ex)]|intros [?|(x & Hx & Ex)]].
    all: try (apply elem_of_cons in Hx as [->|Hx]).
    all: try done; eauto using list_elem_of_here, list_elem_of_further.
Qed.

(** [sourceAccount] is assigned from a row whose id is the source's. *)
Lemma scanned_sourceAccount req rows : ∀ l,
  foundSource (scanned req rows l) = true →
  (sourceAccount (scanned req rows l) ∈ rows ∧
   AccountID (sourceAccount (scanned req rows l)) = SourceAccountID req) ∨
  (sourceAccount (scanned req rows l) = sourceAccount l ∧ foundSource l = true).
Proof.
  induction rows as [|a rest IH]; intros l Hf.
  - right. by split.
  - rewrite scanned_cons in *. destruct (IH _ Hf) as [[Hin Hid]|[Heq Hfl]].
    + left. split; [by apply list_elem_of_further|done].
    + rewrite Heq. revert Hfl. unfold visit.
      destruct (Z.eqb_spec (AccountID a) (SourceAccountID req)) as [E|NE];
        destruct (AccountID a =? DestinationAccountID req); simpl; intros Hfl.
      all: first [left; split; [apply list_elem_of_here|done] | by right].
Qed.


(* ===================================================================== *)
(** ** [ExecuteTransfer], statement by statement                         *)
(* ===================================================================== *)

Lemma new_locks_free ids c : held c = [] → new_locks ids c = ids.
Proof.
  unfold new_locks. intros ->. induction ids as [|id ids IH]; [done|].
  rewrite filter_cons_True by apply not_elem_of_nil. by f_equal.
Qed.

Lemma new_locks_held ids c :
  (∀ id, id ∈ ids → id ∈ held c) → new_locks ids c = [].
Proof.
  unfold new_locks. induction ids as [|id ids IH]; intros Hheld; [done|].
  rewrite filter_cons_False.
  - apply IH. intros x Hx. apply Hheld. by right.
  - intros Hn. apply Hn, Hheld. by left.
Qed.

(** An update of a row that the transaction holds takes no lock. *)
Lemma Exec_run refused at_stage id stmt c work :
  pending c = Some work → id ∈ held c →
  Exec refused at_stage id stmt c =
  if refused then (Err (ErrStore at_stage), c)
  else (Ok tt, {| committed := committed c; pending := Some (stmt work);
                  held := held c; locks_taken := locks_taken c |}).
Proof.
  intros Hp Hheld. unfold Exec. rewrite Hp. destruct refused; [done|].
  rewrite new_locks_held, !app_nil_r; [done|].
  intros x. case_bool_decide; [|by intros ?%elem_of_nil].
  by intros ->%list_elem_of_singleton.
Qed.

Lemma found_ids req rows :
  let l := scanned req rows locals0 in
  (foundSource l = true → SourceAccountID req ∈ AccountID <$> rows) ∧
  (foundDest l = true → DestinationAccountID req ∈ AccountID <$> rows).
Proof.
  split.
  - intros [?|(acc & Hin & <-)]%scanned_foundSource; [done|].
    by apply list_elem_of_fmap_2.
  - intros [?|(acc & Hin & <-)]%scanned_foundDest; [done|].
    by apply list_elem_of_fmap_2.
Qed.

(** The monadic code comes down to one decision per statement.  Every way
    out leaves the connection without a transaction; every way out but the
    last leaves the committed table as it was; and the only locks taken are
    those of the locking read. *)
Lemma ExecuteTransfer_run f req (t : gmap Z Z) :
  PostgresStore.ExecuteTransfer f req (idle t) =
  let rows := locked_rows f req t in
  let l := scanned req rows locals0 in
  let ids := AccountID <$> rows in
  if begin_err f then (Err (ErrStore AtBegin), closed t [])
  else if query_err f then (Err (ErrStore AtQuery), closed t [])
  else if scan_fails f 0 (length rows) then (Err (ErrStore AtScan), closed t ids)
  else if negb (foundSource l) || negb (foundDest l)
  then (Err ErrNotFound, closed t ids)
  else if decimal.LessThan (Balance (sourceAccount l)) (Amount req)
  then (Err ErrInsufficientFunds, closed t ids)
  else if debit_err f then (Err (ErrStore AtDebit), closed t ids)
  else if credit_err f then (Err (ErrStore AtCredit), closed t ids)
  else if commit_err f then (Err (ErrStore AtCommit), closed t ids)
  else (Ok tt,
        closed (update_credit (Amount req) (DestinationAccountID req)
                  (update_debit (Amount req) (SourceAccountID req) t)) ids).
Proof.
  cbv zeta. unfold PostgresStore.ExecuteTransfer.
  unfold bind at 1. unfold Begin, idle. cbn [committed pending held locks_taken].
  destruct (begin_err f); [done|].
  unfold defer, bind at 1. unfold Query. cbn [committed pending held locks_taken].
  destruct (query_err f); [done|].
  change (delivered f (select_for_update (SourceAccountID req)
            (DestinationAccountID req) t)) with (locked_rows f req t).
  rewrite new_locks_free by done. cbn [app].
  set (rows := locked_rows f req t).
  destruct (found_ids req rows) as [Hs Hd].
  unfold bind at 1. rewrite scan_rows_run.
  destruct (scan_fails _ _ _); [done|].
  destruct (foundSource (scanned req rows locals0)); [|done].
  destruct (foundDest (scanned req rows locals0)); [|done].
  cbn [negb orb].
  destruct (decimal.LessThan _ _); [done|].
  unfold bind at 1. rewrite (Exec_run _ _ _ _ _ t) by auto.
  destruct (debit_err f); [done|].
  unfold bind at 1. cbn [committed pending held locks_taken].
  rewrite (Exec_run _ _ _ _ _ (update_debit (Amount req) (SourceAccountID req) t))
    by auto.
  destruct (credit_err f); [done|].
  unfold Commit. cbn [committed pending held locks_taken].
  by destruct (commit_err f).
Qed.

Lemma execute_transfer_run f req (t : gmap Z Z) :
  execute_transfer f req t =
  let rows := locked_rows f req t in
  let l := scanned req rows locals0 in
  if begin_err f then (Some (ErrStore AtBegin), t)
  else if query_err f then (Some (ErrStore AtQuery), t)
  else if scan_fails f 0 (length rows) then (Some (ErrStore AtScan), t)
  else if negb (foundSource l) || negb (foundDest l) then (Some ErrNotFound, t)
  else if decimal.LessThan (Balance (sourceAccount l)) (Amount req)
  then (Some ErrInsufficientFunds, t)
  else if debit_err f then (Some (ErrStore AtDebit), t)
  else if credit_err f then (Some (ErrStore AtCredit), t)
  else if commit_err f then (Some (ErrStore AtCommit), t)
  else (None, update_credit (Amount req) (DestinationAccountID req)
                (update_debit (Amount req) (SourceAccountID req) t)).
Proof.
  unfold execute_transfer. rewrite ExecuteTransfer_run. cbv zeta.
  destruct (begin_err f); [done|]. destruct (query_err f); [done|].
  destruct (scan_fails _ _ _); [done|].
  destruct (negb _ || negb _); [done|].
  destruct (decimal.LessThan _ _); [done|].
  destruct (debit_err f); [done|]. destruct (credit_err f); [done|].
  by destruct (commit_err f).
Qed.

Lemma lock_order_run f req (t : gmap Z Z) :
  lock_order f req t =
  if begin_err f || query_err f then []
  else AccountID <$> locked_rows f req t.
Proof.
  unfold lock_order. rewrite ExecuteTransfer_run. cbv zeta.
  destruct (begin_err f); [done|]. destruct (query_err f); [done|].
  destruct (scan_fails _ _ _); [done|].
  destruct (negb _ || negb _); [done|].
  destruct (decimal.LessThan _ _); [done|].
  destruct (debit_err f); [done|]. destruct (credit_err f); [done|].
  by destruct (commit_err f).
Qed.

(* ===================================================================== *)
(** ** What the loop found, against the table                            *)
(* ===================================================================== *)

Lemma locked_rows_lookup f req (t : gmap Z Z) acc :
  acc ∈ locked_rows f req t →
  ∃ bal, t !! AccountID acc = Some bal ∧ Balance acc = of_column bal.
Proof.
  unfold locked_rows. intros H%elem_of_delivered.
  by apply elem_of_select_for_update in H as [? _].
Qed.

Lemma found_source_lookup f req (t : gmap Z Z) :
  let l := scanned req (locked_rows f req t) locals0 in
  foundSource l = true →
  ∃ bs, t !! SourceAccountID req = Some bs ∧
        Balance (sourceAccount l) = of_column bs.
Proof.
  intros l Hf. destruct (scanned_sourceAccount _ _ _ Hf) as [[Hin Hid]|[_ ?]];
    [|done].
  rewrite <-Hid. by eapply locked_rows_lookup.
Qed.

Lemma found_dest_lookup f req (t : gmap Z Z) :
  foundDest (scanned req (locked_rows f req t) locals0) = true →
  is_Some (t !! DestinationAccountID req).
Proof.
  intros [?|(acc & Hin & Hid)]%scanned_foundDest; [done|].
  rewrite <-Hid. destruct (locked_rows_lookup f req t acc Hin) as (bal & ? & _).
  by eexists.
Qed.

Lemma locked_rows_complete f req (t : gmap Z Z) id bal :
  rows_cut f = None → t !! id = Some bal →
  id = SourceAccountID req ∨ id = DestinationAccountID req →
  {| AccountID := id; Balance := of_column bal |} ∈ locked_rows f req t.
Proof.
  intros Hcut Hl Hid. unfold locked_rows, delivered. rewrite Hcut.
  apply elem_of_select_for_update. split; [by exists bal|done].
Qed.

Lemma present_found_source f req (t : gmap Z Z) :
  rows_cut f = None → is_Some (t !! SourceAccountID req) →
  foundSource (scanned req (locked_rows f req t) locals0) = true.
Proof.
  intros Hcut [bal Hl]. apply scanned_foundSource. right.
  eexists. split; [eapply locked_rows_complete; eauto|done].
Qed.

Lemma present_found_dest f req (t : gmap Z Z) :
  rows_cut f = None → is_Some (t !! DestinationAccountID req) →
  foundDest (scanned req (locked_rows f req t) locals0) = true.
Proof.
  intros Hcut [bal Hl]. apply scanned_foundDest. right.
  eexists. split; [eapply locked_rows_complete; eauto|done].
Qed.

(* ===================================================================== *)
(** ** Sums of balances                                                  *)
(* ===================================================================== *)






(** With an amount that the column holds as it is, the two updates are the
    exact subtraction and addition of its units. *)
Lemma updates_exact amount s d (t : gmap Z Z) :
  at_scale5 amount →
  update_credit amount d (update_debit amount s t) =
  alter (λ bal, bal + to_column amount) d
    (alter (λ bal, bal - to_column amount) s t).
Proof.
  intros Hs. unfold update_credit, update_debit.
  erewrite (alter_ext _ (λ bal, bal + to_column amount));
    [|intros; by apply credit_exact].
  f_equal. apply alter_ext. intros. by apply debit_exact.
Qed.


(* ===================================================================== *)
(** ** The two ways out of a transfer                                    *)
(* ===================================================================== *)

(** A transfer either reports an error and leaves the table as it was, or
    reports none, in which case both accounts were read under the lock, the
    source held the amount, and both updates are committed. *)
Lemma execute_transfer_inv f req (t t' : gmap Z Z) e :
  execute_transfer f req t = (e, t') →
  (e ≠ None ∧ t' = t) ∨
  (e = None ∧
   t' = update_credit (Amount req) (DestinationAccountID req)
          (update_debit (Amount req) (SourceAccountID req) t) ∧
   ∃ bs, t !! SourceAccountID req = Some bs ∧
         decimal.LessThan (of_column bs) (Amount req) = false ∧
         is_Some (t !! DestinationAccountID req)).
Proof.
  rewrite execute_transfer_run. cbv zeta.
  destruct (begin_err f); [intros [= <- <-]; by left|].
  destruct (query_err f); [intros [= <- <-]; by left|].
  destruct (scan_fails _ _ _); [intros [= <- <-]; by left|].
  destruct (foundSource _) eqn:Hfs; [|intros [= <- <-]; by left].
  destruct (foundDest _) eqn:Hfd; [|intros [= <- <-]; by left]. simpl.
  destruct (found_source_lookup f req t Hfs) as (bs & Hs & ->).
  destruct (decimal.LessThan _ _) eqn:Hlt; [intros [= <- <-]; by left|].
  destruct (debit_err f); [intros [= <- <-]; by left|].
  destruct (credit_err f); [intros [= <- <-]; by left|].
  destruct (commit_err f); [intros [= <- <-]; by left|].
  intros [= <- <-]. right. split_and!; [done..|].
  exists bs. split_and!; [done..|]. by eapply found_dest_lookup.
Qed.

(** With the locking read answered in full, what the loop leaves is read
    off the table. *)
Lemma execute_transfer_read_ok f req (t : gmap Z Z) :
  read_ok f →
  execute_transfer f req t =
  match t !! SourceAccountID req, t !! DestinationAccountID req with
  | Some bs, Some _ =>
      if decimal.LessThan (of_column bs) (Amount req)
      then (Some ErrInsufficientFunds, t)
      else if debit_err f then (Some (ErrStore AtDebit), t)
      else if credit_err f then (Some (ErrStore AtCredit), t)
      else if commit_err f then (Some (ErrStore AtCommit), t)
      else (None, update_credit (Amount req) (DestinationAccountID req)
                    (update_debit (Amount req) (SourceAccountID req) t))
  | _, _ => (Some ErrNotFound, t)
  end.
Proof.
  intros (Hb & Hq & Hcut & Hscan). rewrite execute_transfer_run. cbv zeta.
  rewrite Hb, Hq. unfold scan_fails. rewrite Hscan.
  destruct (foundSource _) eqn:Hfs; simpl.
  - destruct (found_source_lookup f req t Hfs) as (bs & -> & ->).
    destruct (foundDest _) eqn:Hfd; simpl.
    + by destruct (found_dest_lookup f req t Hfd) as [bd ->].
    + destruct (t !! DestinationAccountID req) eqn:Hd; [|done].
      rewrite present_found_dest in Hfd; [done..|by eexists].
  - destruct (t !! SourceAccountID req) eqn:Hs; [|done].
    rewrite present_found_source in Hfs; [done..|by eexists].
Qed.


(* ===================================================================== *)
(** ** Properties of the transfer engine                                 *)
(* ===================================================================== *)




(** C2 (atomicity).  Whatever makes a transfer fail, an account that is
    missing, a source that cannot pay, or the database refusing any of the
    statements up to and including the commit, the table is afterwards
    what it was before.  What a call leaves behind is either nothing or the
    debit together with its credit, never one without the other. *)
Theorem failed_transfer_changes_nothing f req (t t' : gmap Z Z) e :
  execute_transfer f req t = (e, t') →
  (e ≠ None → t' = t) ∧
  (t' = t ∨
   t' = update_credit (Amount req) (DestinationAccountID req)
          (update_debit (Amount req) (SourceAccountID req) t)).
Proof.
  intros Hrun.
  apply execute_transfer_inv in Hrun as [[_ ->]|(-> & -> & _)]; split; auto.
  done.
Qed.

Lemma failed_transfer_changes_nothing_witness :
  let t : gmap Z Z := {[ 1 := 100; 2 := 50 ]} in
  let req := {| SourceAccountID := 1; DestinationAccountID := 2;
                Amount := decimal.New 30 (-5) |} in
  let f := {| begin_err := false; query_err := false; rows_cut := None;
              scan_err := None; debit_err := false; credit_err := true;
              commit_err := false |} in
  execute_transfer f req t =
    (Some (ErrStore AtCredit), (execute_transfer f req t).2) ∧
  (execute_transfer f req t).2 = t.
Proof.
  intros t req f.
  assert (execute_transfer f req t =
          (Some (ErrStore AtCredit), (execute_transfer f req t).2)) as H
    by (vm_compute; reflexivity).
  split; [exact H|].
  apply (proj1 (failed_transfer_changes_nothing f req t _ _ H)).
  discriminate.
Defined.

(** C3 (insufficient funds).  Between two existing accounts, once the
    locking read has been answered, the transfer ends with
    [ErrInsufficientFunds] exactly when the balance of the source read under
    the lock is strictly below the amount.  So a transfer of the whole
    balance to another account goes through, if the database accepts the
    writes, and leaves the source at zero, while one of the balance plus
    0.00001 ends with [ErrInsufficientFunds]. *)
Theorem insufficient_funds_iff f req (t : gmap Z Z) bs :
  read_ok f →
  t !! SourceAccountID req = Some bs →
  is_Some (t !! DestinationAccountID req) →
  ((execute_transfer f req t).1 = Some ErrInsufficientFunds ↔
   decimal.LessThan (of_column bs) (Amount req) = true) ∧
  (write_ok f → SourceAccountID req ≠ DestinationAccountID req →
   decimal.Equal (Amount req) (of_column bs) = true →
   (execute_transfer f req t).1 = None ∧
   (execute_transfer f req t).2 !! SourceAccountID req = Some 0) ∧
  (decimal.Equal (Amount req)
     (decimal.Add (of_column bs) (decimal.New 1 (-5))) = true →
   (execute_transfer f req t).1 = Some ErrInsufficientFunds).
Proof.
  intros Hread Hs [bd Hd]. rewrite (execute_transfer_read_ok f req t Hread).
  rewrite Hs, Hd.
  split_and!.
  - destruct (decimal.LessThan _ _); simpl; [done|].
    split; [|done].
    by destruct (debit_err f), (credit_err f), (commit_err f).
  - intros (-> & -> & ->) Hne [Hexact Hcol]%Equal_of_column.
    rewrite (LessThan_exact bs _ Hexact), Hcol, Z.ltb_irrefl. simpl.
    split; [done|]. rewrite updates_exact by done.
    rewrite lookup_alter_ne, lookup_alter_eq, Hs by done. simpl.
    f_equal. lia.
  - change (decimal.New 1 (-5)) with (of_column 1). rewrite Add_of_column.
    intros [Hexact Hcol]%Equal_of_column.
    rewrite (LessThan_exact bs _ Hexact), Hcol.
    by destruct (Z.ltb_spec bs (bs + 1)); [|lia].
Qed.

Lemma insufficient_funds_iff_witness :
  let t : gmap Z Z :=
    {[ 50 := to_column (decimal.NewFromInt 25);
       40 := to_column (decimal.NewFromInt 100) ]} in
  let bs := to_column (decimal.NewFromInt 25) in
  let all := {| SourceAccountID := 50; DestinationAccountID := 40;
                Amount := decimal.NewFromInt 25 |} in
  let more := {| SourceAccountID := 50; DestinationAccountID := 40;
                 Amount := decimal.New 2500001 (-5) |} in
  read_ok no_faults ∧ write_ok no_faults ∧
  t !! 50 = Some bs ∧
  is_Some (t !! 40) ∧
  decimal.Equal (Amount all) (of_column bs) = true ∧
  decimal.Equal (Amount more)
    (decimal.Add (of_column bs) (decimal.New 1 (-5))) = true ∧
  (execute_transfer no_faults all t).1 = None ∧
  (execute_transfer no_faults all t).2 !! 50 = Some 0 ∧
  (execute_transfer no_faults more t).1 = Some ErrInsufficientFunds.
Proof.
  intros t bs all more.
  assert (read_ok no_faults) as H1 by (repeat split).
  assert (write_ok no_faults) as H2 by (repeat split).
  assert (t !! 50 = Some bs) as H3 by (vm_compute; reflexivity).
  assert (is_Some (t !! 40)) as H4
    by (exists (to_column (decimal.NewFromInt 100)); vm_compute; reflexivity).
  assert (SourceAccountID all ≠ DestinationAccountID all) as H5
    by (simpl; lia).
  assert (decimal.Equal (Amount all) (of_column bs) = true) as H6
    by (vm_compute; reflexivity).
  assert (decimal.Equal (Amount more)
            (decimal.Add (of_column bs) (decimal.New 1 (-5))) = true) as H7
    by (vm_compute; reflexivity).
  pose proof (insufficient_funds_iff no_faults all t _ H1 H3 H4)
    as (_ & Hall & _).
  pose proof (insufficient_funds_iff no_faults more t _ H1 H3 H4)
    as (_ & _ & Hmore).
  split_and!; [exact H1|exact H2|exact H3|exact H4|exact H6|exact H7|..].
  - exact (proj1 (Hall H2 H5 H6)).
  - exact (proj2 (Hall H2 H5 H6)).
  - exact (Hmore H7).
Defined.

(** C4 (account not found).  Once the locking read has been sent and no
    row has failed to scan, the transfer ends with [ErrNotFound] exactly
    when the source, the destination or both are missing from the rows
    that were locked and read, whichever it is; the table is then left as
    it was.  When the rows are read to the end, that is exactly when one
    of the two ids has no row in the table. *)
Theorem account_not_found_iff f req (t : gmap Z Z) :
  begin_err f = false → query_err f = false → scan_err f = None →
  ((execute_transfer f req t).1 = Some ErrNotFound ↔
   SourceAccountID req ∉ AccountID <$> locked_rows f req t ∨
   DestinationAccountID req ∉ AccountID <$> locked_rows f req t) ∧
  ((execute_transfer f req t).1 = Some ErrNotFound →
   (execute_transfer f req t).2 = t) ∧
  (rows_cut f = None →
   ((execute_transfer f req t).1 = Some ErrNotFound ↔
    t !! SourceAccountID req = None ∨ t !! DestinationAccountID req = None)).
Proof.
  intros Hb Hq Hscan.
  assert (∀ id (rows : list Account), id ∉ AccountID <$> rows ↔
                     ¬ ∃ acc : Account, acc ∈ rows ∧ AccountID acc = id) as Hmem.
  { intros id rows. rewrite list_elem_of_fmap. split; intros H (acc & ? & ?);
      apply H; exists acc; done. }
  split_and!.
  - rewrite execute_transfer_run. cbv zeta.
    rewrite Hb, Hq. unfold scan_fails. rewrite Hscan, !Hmem.
    pose proof (scanned_foundSource req (locked_rows f req t) locals0) as HS.
    pose proof (scanned_foundDest req (locked_rows f req t) locals0) as HD.
    destruct (foundSource _); simpl.
    + destruct (foundDest _); simpl.
      * split.
        { intros H. exfalso. revert H.
          by destruct (decimal.LessThan _ _), (debit_err f), (credit_err f),
            (commit_err f). }
        intros [H|H]; exfalso; apply H.
        -- by destruct (proj1 HS eq_refl).
        -- by destruct (proj1 HD eq_refl).
      * split; [|done]. intros _. right. intros H.
        by pose proof (proj2 HD (or_intror H)).
    + split; [|done]. intros _. left. intros H.
      by pose proof (proj2 HS (or_intror H)).
  - destruct (execute_transfer f req t) as [e t'] eqn:E. simpl. intros ->.
    by apply execute_transfer_inv in E as [[_ ->]|[? _]].
  - intros Hcut. rewrite (execute_transfer_read_ok f req t) by done.
    destruct (t !! SourceAccountID req) as [bs|]; [|simpl; tauto].
    destruct (t !! DestinationAccountID req) as [bd|]; [|simpl; tauto].
    split; [|intros [?|?]; done].
    by destruct (decimal.LessThan _ _), (debit_err f), (credit_err f),
      (commit_err f).
Qed.

Lemma account_not_found_iff_witness :
  let t : gmap Z Z :=
    {[ 1 := to_column (decimal.NewFromInt 1000);
       2 := to_column (decimal.NewFromInt 500) ]} in
  let req := {| SourceAccountID := 999; DestinationAccountID := 2;
                Amount := decimal.NewFromInt 10 |} in
  begin_err no_faults = false ∧ query_err no_faults = false ∧
  scan_err no_faults = None ∧ rows_cut no_faults = None ∧
  (execute_transfer no_faults req t).1 = Some ErrNotFound ∧
  (execute_transfer no_faults req t).2 = t.
Proof.
  intros t req.
  pose proof (account_not_found_iff no_faults req t eq_refl eq_refl eq_refl)
    as (_ & Hsame & Hiff).
  assert ((execute_transfer no_faults req t).1 = Some ErrNotFound) as Hnf.
  { apply (Hiff eq_refl). left. vm_compute. reflexivity. }
  split_and!; [reflexivity..|exact Hnf|exact (Hsame Hnf)].
Defined.

Lemma lock_order_lookup f req (t : gmap Z Z) (i : nat) x :
  lock_order f req t !! i = Some x →
  ∃ acc, select_for_update (SourceAccountID req) (DestinationAccountID req) t
           !! i = Some acc ∧ AccountID acc = x.
Proof.
  rewrite lock_order_run. destruct (begin_err f || query_err f).
  { by rewrite lookup_nil. }
  rewrite list_lookup_fmap. unfold locked_rows.
  destruct (delivered f _ !! i) as [acc|] eqn:E; [|done].
  intros [= <-]. exists acc. split; [by eapply lookup_delivered|done].
Qed.

Lemma lock_order_ascending f req (t : gmap Z Z) (i j : nat) x y :
  lock_order f req t !! i = Some x →
  lock_order f req t !! j = Some y →
  (i < j)%nat → x < y.
Proof.
  intros (a & Ha & <-)%lock_order_lookup (b & Hb & <-)%lock_order_lookup Hij.
  by eapply select_for_update_ascending.
Qed.

(** C5 (lock order).  The locking read returns exactly the rows of the two
    ids that exist, and the same rows in the same order when source and
    destination are exchanged.  The row locks that [ExecuteTransfer] takes
    are those of the rows this read hands out, taken in the order of the
    result and in no other statement: strictly ascending account ids,
    whichever id is the source.  So whatever two transfers are run, on
    whatever tables, two accounts that both of them lock are locked in the
    same order by both. *)
Theorem locking_read_ascending :
  (∀ id1 id2 (t : gmap Z Z) acc,
     acc ∈ select_for_update id1 id2 t ↔
     (∃ bal, t !! AccountID acc = Some bal ∧ Balance acc = of_column bal) ∧
     (AccountID acc = id1 ∨ AccountID acc = id2)) ∧
  (∀ id1 id2 (t : gmap Z Z),
     select_for_update id1 id2 t = select_for_update id2 id1 t) ∧
  (∀ f req (t : gmap Z Z),
     begin_err f = false → query_err f = false →
     lock_order f req t = AccountID <$> locked_rows f req t) ∧
  (∀ f req (t : gmap Z Z),
     begin_err f = false → query_err f = false → rows_cut f = None →
     ∀ id, id ∈ lock_order f req t ↔
           (id = SourceAccountID req ∨ id = DestinationAccountID req) ∧
           is_Some (t !! id)) ∧
  (∀ f req (t : gmap Z Z) (i j : nat) x y,
     lock_order f req t !! i = Some x →
     lock_order f req t !! j = Some y →
     (i < j)%nat → x < y) ∧
  (∀ f s d amount amount' (t : gmap Z Z),
     lock_order f {| SourceAccountID := s; DestinationAccountID := d;
                     Amount := amount |} t =
     lock_order f {| SourceAccountID := d; DestinationAccountID := s;
                     Amount := amount' |} t) ∧
  (∀ f1 f2 req1 req2 (t1 t2 : gmap Z Z) (i1 j1 i2 j2 : nat) x y,
     lock_order f1 req1 t1 !! i1 = Some x →
     lock_order f1 req1 t1 !! j1 = Some y →
     lock_order f2 req2 t2 !! i2 = Some x →
     lock_order f2 req2 t2 !! j2 = Some y →
     (i1 < j1)%nat → (i2 < j2)%nat).
Proof.
  split_and!.
  - apply elem_of_select_for_update.
  - apply select_for_update_comm.
  - intros f req t Hb Hq. by rewrite lock_order_run, Hb, Hq.
  - intros f req t Hb Hq Hcut id. rewrite lock_order_run, Hb, Hq. simpl.
    unfold locked_rows, delivered. rewrite Hcut, list_elem_of_fmap. split.
    + intros (acc & -> & [(bal & Hl & _) Hid]%elem_of_select_for_update).
      split; [done|by eexists].
    + intros [Hid [bal Hl]].
      exists {| AccountID := id; Balance := of_column bal |}.
      split; [done|]. apply elem_of_select_for_update.
      split; [by exists bal|done].
  - apply lock_order_ascending.
  - intros f s d amount amount' t. rewrite !lock_order_run.
    unfold locked_rows. simpl. by rewrite select_for_update_comm.
  - intros f1 f2 req1 req2 t1 t2 i1 j1 i2 j2 x y Hx1 Hy1 Hx2 Hy2 Hlt.
    pose proof (lock_order_ascending _ _ _ _ _ _ _ Hx1 Hy1 Hlt) as Hxy.
    destruct (lt_eq_lt_dec i2 j2) as [[?|E]|Hgt]; [done|exfalso..].
    + subst j2. rewrite Hx2 in Hy2. injection Hy2 as <-. lia.
    + pose proof (lock_order_ascending _ _ _ _ _ _ _ Hy2 Hx2 Hgt). lia.
Qed.

Lemma locking_read_ascending_witness :
  let t : gmap Z Z := {[ 100 := 7; 200 := 9; 300 := 1 ]} in
  let ab := {| SourceAccountID := 100; DestinationAccountID := 200;
               Amount := decimal.New 1 (-5) |} in
  let ba := {| SourceAccountID := 200; DestinationAccountID := 100;
               Amount := decimal.New 1 (-5) |} in
  (begin_err no_faults = false ∧ query_err no_faults = false ∧
   rows_cut no_faults = None ∧
   lock_order no_faults ba t = AccountID <$> locked_rows no_faults ba t ∧
   (200 ∈ lock_order no_faults ba t ↔
    (200 = SourceAccountID ba ∨ 200 = DestinationAccountID ba) ∧
    is_Some (t !! 200))) ∧
  (lock_order no_faults ab t !! 0%nat = Some 100 ∧
   lock_order no_faults ab t !! 1%nat = Some 200 ∧
   lock_order no_faults ba t !! 0%nat = Some 100 ∧
   lock_order no_faults ba t !! 1%nat = Some 200 ∧
   (0 < 1)%nat ∧ 100 < 200).
Proof.
  intros t ab ba.
  assert (lock_order no_faults ab t !! 0%nat = Some 100) as H3
    by (vm_compute; reflexivity).
  assert (lock_order no_faults ab t !! 1%nat = Some 200) as H4
    by (vm_compute; reflexivity).
  assert (lock_order no_faults ba t !! 0%nat = Some 100) as H5
    by (vm_compute; reflexivity).
  assert (lock_order no_faults ba t !! 1%nat = Some 200) as H6
    by (vm_compute; reflexivity).
  assert (0 < 1)%nat as H7 by lia.
  pose proof locking_read_ascending as (_ & _ & Hlog & Hmem & Hasc & _ & Hsame).
  split; [split_and!; [done..| |]|split_and!; [done..| |]].
  - exact (Hlog no_faults ba t eq_refl eq_refl).
  - exact (Hmem no_faults ba t eq_refl eq_refl eq_refl 200).
  - exact (Hsame no_faults no_faults ab ba t t _ _ 0%nat 1%nat 100 200
             H3 H4 H5 H6 H7).
  - exact (Hasc no_faults ba t _ _ 100 200 H5 H6 H7).
Defined.

(* ===================================================================== *)
(** ** Account creation                                                  *)
(* ===================================================================== *)

(** C6 (idempotent creation).  Creating an account whose id is already in
    the table changes nothing, whatever balance the call carries, and
    returns no error when the database accepts the statement; so when an
    account has been created, a second creation with its id, whatever its
    balance, succeeds and the account still reads the balance the first
    one stored, which is the balance of the first when the column holds it
    as it is. *)
Theorem create_account_idempotent :
  (∀ (t : gmap Z Z) acc bal0,
     t !! AccountID acc = Some bal0 →
     create_account false acc t = (None, t) ∧
     ∀ refused, (create_account refused acc t).2 = t) ∧
  (∀ (t : gmap Z Z) first again,
     AccountID again = AccountID first →
     t !! AccountID first = None →
     let t1 := (create_account false first t).2 in
     create_account false again t1 = (None, t1) ∧
     get_account false (AccountID first) (create_account false again t1).2 =
     Ok {| AccountID := AccountID first;
           Balance := of_column (to_column (Balance first)) |} ∧
     (at_scale5 (Balance first) →
      decimal.Equal (of_column (to_column (Balance first))) (Balance first)
      = true)).
Proof.
  assert (∀ (t : gmap Z Z) acc bal0, t !! AccountID acc = Some bal0 →
            create_account false acc t = (None, t)) as Hsame.
  { intros t acc bal0 Hl.
    unfold create_account, PostgresStore.CreateAccount, insert_do_nothing.
    simpl. by rewrite Hl. }
  split.
  - intros t acc bal0 Hl. split; [by eapply Hsame|].
    intros [|]; [done|]. by erewrite Hsame.
  - intros t first again Hid Hfresh t1.
    assert (t1 !! AccountID first = Some (to_column (Balance first))) as Hl.
    { unfold t1, create_account, PostgresStore.CreateAccount, insert_do_nothing.
      simpl. rewrite Hfresh. apply lookup_insert_eq. }
    rewrite (Hsame t1 again (to_column (Balance first))) by (by rewrite Hid).
    split_and!; [done| |done].
    unfold get_account, PostgresStore.GetAccount, select_balance.
    simpl. by rewrite Hl.
Qed.

Lemma create_account_idempotent_witness :
  let first := {| AccountID := 2; Balance := decimal.NewFromInt 200 |} in
  let again := {| AccountID := 2; Balance := decimal.NewFromInt 999 |} in
  let t1 : gmap Z Z := (create_account false first ∅).2 in
  (t1 !! AccountID again = Some (to_column (decimal.NewFromInt 200)) ∧
   create_account false again t1 = (None, t1)) ∧
  (AccountID again = AccountID first ∧
   (∅ : gmap Z Z) !! AccountID first = None ∧
   at_scale5 (Balance first) ∧
   get_account false 2 (create_account false again t1).2 =
     Ok {| AccountID := 2;
           Balance := of_column (to_column (decimal.NewFromInt 200)) |} ∧
   decimal.Equal (of_column (to_column (Balance first))) (Balance first) = true).
Proof.
  intros first again t1.
  assert (t1 !! AccountID again = Some (to_column (decimal.NewFromInt 200))) as H1
    by (vm_compute; reflexivity).
  assert (AccountID again = AccountID first) as H2 by reflexivity.
  assert ((∅ : gmap Z Z) !! AccountID first = None) as H3 by reflexivity.
  assert (at_scale5 (Balance first)) as H4 by (vm_compute; reflexivity).
  pose proof (proj2 create_account_idempotent ∅ first again H2 H3)
    as (_ & Hget & Heq).
  split; [split; [exact H1|]|split_and!; [exact H2|exact H3|exact H4|..]].
  - exact (proj1 (proj1 create_account_idempotent t1 again _ H1)).
  - exact Hget.
  - exact (Heq H4).
Defined.

(* ===================================================================== *)
(** ** Transfers at the edges: same account, zero, negative amounts      *)
(* ===================================================================== *)




(** C8, as amended (zero amount).  When the database refuses nothing, a
    transfer of exactly zero between two existing accounts leaves every
    balance as it was; it reports no error when the balance of the source
    is not negative, and [ErrInsufficientFunds] when it is negative. *)
Theorem zero_transfer_noop f req (t : gmap Z Z) bs :
  fault_free f →
  t !! SourceAccountID req = Some bs →
  is_Some (t !! DestinationAccountID req) →
  decimal.IsZero (Amount req) = true →
  (0 ≤ bs → execute_transfer f req t = (None, t)) ∧
  (bs < 0 → execute_transfer f req t = (Some ErrInsufficientFunds, t)).
Proof.
  intros [Hread (Hdebit & Hcredit & Hcommit)] Hs [bd Hd] Hzero.
  destruct (IsZero_at_scale5 _ Hzero) as [Hexact Hcol].
  rewrite (execute_transfer_read_ok f req t Hread), Hs, Hd.
  rewrite Hdebit, Hcredit, Hcommit, (LessThan_zero bs _ Hzero).
  split; intros Hbs; destruct (Z.ltb_spec bs 0); try lia; [|done].
  f_equal. rewrite updates_exact, Hcol by done.
  rewrite !alter_id; [done|intros; lia..].
Qed.

Lemma zero_transfer_noop_witness :
  let t : gmap Z Z :=
    {[ 30 := to_column (decimal.NewFromInt 50);
       40 := to_column (decimal.NewFromInt 100) ]} in
  let req := {| SourceAccountID := 30; DestinationAccountID := 40;
                Amount := decimal.Zero |} in
  fault_free no_faults ∧
  t !! SourceAccountID req = Some (to_column (decimal.NewFromInt 50)) ∧
  is_Some (t !! DestinationAccountID req) ∧
  decimal.IsZero (Amount req) = true ∧
  0 ≤ to_column (decimal.NewFromInt 50) ∧
  execute_transfer no_faults req t = (None, t).
Proof.
  intros t req.
  assert (fault_free no_faults) as H1 by (repeat split).
  assert (t !! SourceAccountID req = Some (to_column (decimal.NewFromInt 50)))
    as H2 by (vm_compute; reflexivity).
  assert (is_Some (t !! DestinationAccountID req)) as H3
    by (exists (to_column (decimal.NewFromInt 100)); vm_compute; reflexivity).
  assert (decimal.IsZero (Amount req) = true) as H4 by reflexivity.
  assert (0 ≤ to_column (decimal.NewFromInt 50)) as H5
    by (vm_compute; discriminate).
  split_and!; [exact H1|exact H2|exact H3|exact H4|exact H5|].
  exact (proj1 (zero_transfer_noop no_faults req t _ H1 H2 H3 H4) H5).
Defined.

(** C8 as stated fails: an account created with the balance -100, as the
    store allows, cannot be the source of a transfer of zero, which ends
    with [ErrInsufficientFunds] although both accounts exist and the
    database refuses nothing. *)
Lemma zero_transfer_negative_source :
  let t : gmap Z Z :=
    (create_account false {| AccountID := 40; Balance := decimal.NewFromInt 100 |}
       (create_account false
          {| AccountID := 4; Balance := decimal.NewFromInt (-100) |} ∅).2).2 in
  let req := {| SourceAccountID := 4; DestinationAccountID := 40;
                Amount := decimal.Zero |} in
  fault_free no_faults ∧
  is_Some (t !! SourceAccountID req) ∧
  is_Some (t !! DestinationAccountID req) ∧
  (execute_transfer no_faults req t).1 = Some ErrInsufficientFunds ∧
  (execute_transfer no_faults req t).1 ≠ None.
Proof.
  intros t req. split_and!.
  - repeat split.
  - exists (to_column (decimal.NewFromInt (-100))). vm_compute. reflexivity.
  - exists (to_column (decimal.NewFromInt 100)). vm_compute. reflexivity.
  - vm_compute. reflexivity.
  - vm_compute. discriminate.
Qed.




(* ===================================================================== *)
(** ** The validation of the transaction handler                         *)
(* ===================================================================== *)

(** C10 (validation before the engine).  Whatever store the handler is
    given, a decoded request whose source and destination are the same
    account, or whose amount is not strictly positive, is answered with
    400 Bad Request and the store is left in the state it was in: its
    [ExecuteTransfer] is not called.  On the store that records its calls,
    the record grows by the request exactly when the request passes both
    checks. *)
Theorem handler_rejects_before_engine :
  (∀ (S : Type) (store : Store S) req (st : S),
     SourceAccountID req = DestinationAccountID req ∨
     ¬ 0 < decimal.value (Amount req) →
     Code (CreateTransactionHandler (Some req) st).1 = StatusBadRequest ∧
     (CreateTransactionHandler (Some req) st).2 = st) ∧
  (∀ (m : MockStore) req calls,
     (@CreateTransactionHandler _ (MockStore_Store m) (Some req) calls).2 =
     if (SourceAccountID req =? DestinationAccountID req)
        || negb (decimal.IsPositive (Amount req))
     then calls else calls ++ [req]).
Proof.
  split.
  - intros S store req st Hbad. unfold CreateTransactionHandler.
    destruct (Z.eqb_spec (SourceAccountID req) (DestinationAccountID req));
      [done|].
    unfold decimal.IsPositive.
    destruct (Z.ltb_spec 0 (decimal.value (Amount req))); [|done].
    by destruct Hbad.
  - intros m req calls. unfold CreateTransactionHandler.
    destruct (SourceAccountID req =? DestinationAccountID req); [done|].
    destruct (decimal.IsPositive (Amount req)); [|done]. simpl.
    by destruct (ExecuteTransferFunc m req) as [[]|].
Qed.

Lemma handler_rejects_before_engine_witness :
  let t : gmap Z Z := {[ 1 := to_column (decimal.NewFromInt 1000) ]} in
  let req := {| SourceAccountID := 1; DestinationAccountID := 1;
                Amount := decimal.NewFromInt 100 |} in
  let store := PostgresStore_Store false no_faults in
  (SourceAccountID req = DestinationAccountID req ∨
   ¬ 0 < decimal.value (Amount req)) ∧
  Code (@CreateTransactionHandler _ store (Some req) t).1 = StatusBadRequest ∧
  (@CreateTransactionHandler _ store (Some req) t).2 = t ∧
  (execute_transfer no_faults req t).1 = None.
Proof.
  intros t req store.
  assert (SourceAccountID req = DestinationAccountID req ∨
          ¬ 0 < decimal.value (Amount req))
    as H by (left; reflexivity).
  split_and!; [exact H|..].
  - exact (proj1 (proj1 handler_rejects_before_engine _ store req t H)).
  - exact (proj2 (proj1 handler_rejects_before_engine _ store req t H)).
  - vm_compute. reflexivity.
Defined.

(* ===================================================================== *)
(** ** Further properties of the store                                   *)
(* ===================================================================== *)

Lemma transfer_lookup req (t : gmap Z Z) id :
  at_scale5 (Amount req) →
  update_credit (Amount req) (DestinationAccountID req)
    (update_debit (Amount req) (SourceAccountID req) t) !! id =
  (λ bal, bal + net_change req id) <$> t !! id.
Proof.
  intros Hexact. rewrite updates_exact by done. unfold net_change.
  generalize (DestinationAccountID req) (SourceAccountID req)
    (to_column (Amount req)).
  intros d s a.
  destruct (decide (id = d)) as [<-|Hd], (decide (id = s)) as [<-|Hs].
  - rewrite !lookup_alter_eq, !bool_decide_eq_true_2 by done.
    destruct (t !! id); simpl; [f_equal; lia|done].
  - rewrite lookup_alter_eq, lookup_alter_ne by done.
    rewrite bool_decide_eq_true_2, bool_decide_eq_false_2 by done.
    destruct (t !! id); simpl; [f_equal; lia|done].
  - rewrite lookup_alter_ne, lookup_alter_eq by done.
    rewrite bool_decide_eq_false_2, bool_decide_eq_true_2 by done.
    destruct (t !! id); simpl; [f_equal; lia|done].
  - rewrite !lookup_alter_ne, !bool_decide_eq_false_2 by done.
    destruct (t !! id); simpl; [f_equal; lia|done].
Qed.

Lemma fmap_add_zero (o : option Z) : (λ bal, bal + 0) <$> o = o.
Proof. destruct o; simpl; [f_equal; lia|done]. Qed.

Lemma fmap_add_add (o : option Z) x y :
  (λ bal, bal + y) <$> ((λ bal, bal + x) <$> o) = (λ bal, bal + (x + y)) <$> o.
Proof. destruct o; simpl; [f_equal; lia|done]. Qed.

Lemma execute_transfers_lookup calls : ∀ (t t' : gmap Z Z) es id,
  Forall (λ call, at_scale5 (Amount call.2)) calls →
  execute_transfers calls t = (es, t') →
  t' !! id = (λ bal, bal + net_changes calls es id) <$> t !! id.
Proof.
  induction calls as [|[f req] rest IH]; intros t t' es id Hexact; simpl.
  - intros [= <- <-]. by rewrite fmap_add_zero.
  - apply Forall_cons in Hexact as [Hreq Hrest]. simpl in Hreq.
    destruct (execute_transfer f req t) as [e t1] eqn:E1.
    destruct (execute_transfers rest t1) as [es' t2] eqn:E2.
    intros [= <- <-]. rewrite (IH _ _ _ id Hrest E2).
    apply execute_transfer_inv in E1 as [[He ->]|(-> & -> & _)].
    + by destruct e.
    + rewrite transfer_lookup, fmap_add_add by done. done.
Qed.

Lemma execute_transfers_length calls : ∀ (t t' : gmap Z Z) es,
  execute_transfers calls t = (es, t') → length es = length calls.
Proof.
  induction calls as [|[f req] rest IH]; intros t t' es; simpl.
  - by intros [= <- <-].
  - destruct (execute_transfer f req t) as [e t1].
    destruct (execute_transfers rest t1) as [es' t2] eqn:E2.
    intros [= <- <-]. simpl. f_equal. by eapply IH.
Qed.

(** X1 (balances after a sequence).  After any sequence of transfers of
    amounts that have no more than five significant fractional digits,
    each with whatever the database refuses to it short of the commit,
    one outcome is reported per transfer, and the balance of every account
    is its balance before plus what the transfers that returned no error
    credited to it minus what they debited from it. *)
Theorem balances_after_transfers calls (t t' : gmap Z Z) es id :
  Forall (λ call, at_scale5 (Amount call.2)) calls →
  Forall (λ call, commit_err call.1 = false) calls →
  execute_transfers calls t = (es, t') →
  length es = length calls ∧
  t' !! id = (λ bal, bal + net_changes calls es id) <$> t !! id.
Proof.
  intros Hexact _ Hrun. split.
  - by eapply execute_transfers_length.
  - by apply execute_transfers_lookup.
Qed.

Lemma balances_after_transfers_witness :
  let t : gmap Z Z :=
    {[ 100 := to_column (decimal.NewFromInt 100);
       200 := to_column (decimal.NewFromInt 100) ]} in
  let ab := {| SourceAccountID := 100; DestinationAccountID := 200;
               Amount := decimal.NewFromInt 10 |} in
  let ba := {| SourceAccountID := 200; DestinationAccountID := 100;
               Amount := decimal.New 2550 (-2) |} in
  let refused := {| begin_err := false; query_err := false; rows_cut := None;
                    scan_err := None; debit_err := false; credit_err := true;
                    commit_err := false |} in
  let calls := [(no_faults, ab); (refused, ab); (no_faults, ba)] in
  let es := [None; Some (ErrStore AtCredit); None] in
  let t' := (execute_transfers calls t).2 in
  Forall (λ call, at_scale5 (Amount call.2)) calls ∧
  Forall (λ call, commit_err call.1 = false) calls ∧
  execute_transfers calls t = (es, t') ∧
  net_changes calls es 100 = 1550000 ∧
  t' !! 100 = Some 11550000.
Proof.
  intros t ab ba refused calls es t'.
  assert (Forall (λ call, at_scale5 (Amount call.2)) calls) as H1
    by (repeat constructor).
  assert (Forall (λ call, commit_err call.1 = false) calls) as H2
    by (repeat constructor).
  assert (execute_transfers calls t = (es, t')) as H by (vm_compute; reflexivity).
  assert (net_changes calls es 100 = 1550000) as Hn by (vm_compute; reflexivity).
  split_and!; [exact H1|exact H2|exact H|exact Hn|].
  rewrite (proj2 (balances_after_transfers calls t t' es 100 H1 H2 H)), Hn.
  vm_compute. reflexivity.
Defined.

Lemma net_changes_all_ok calls : ∀ es id,
  length es = length calls → Forall (λ e, e = None) es →
  net_changes calls es id =
  foldr (λ req acc, net_change req id + acc) 0 calls.*2.
Proof.
  induction calls as [|[f req] rest IH]; intros [|e es] id Hlen Hok;
    simpl in *; try done.
  apply Forall_cons in Hok as [-> Hok]. rewrite IH; [done|lia|done].
Qed.

Lemma net_change_sum_permutation (reqs1 reqs2 : list TransactionRequest) id :
  reqs1 ≡ₚ reqs2 →
  foldr (λ req acc, net_change req id + acc) 0 reqs1 =
  foldr (λ req acc, net_change req id + acc) 0 reqs2.
Proof.
  induction 1 as [|x l1 l2 _ IH|x y l|l1 l2 l3 _ IH1 _ IH2]; simpl; lia.
Qed.

(** X2 (order of transfers).  Two runs from the same table over the same
    requests, taken in a different order, the amounts having no more than
    five significant fractional digits, leave the same table when every
    transfer of both runs returned no error: the order in which committed
    transfers are serialised does not show in the balances. *)
Theorem transfers_order_independent calls1 calls2 (t t1 t2 : gmap Z Z) es1 es2 :
  Forall (λ call, at_scale5 (Amount call.2)) calls1 →
  execute_transfers calls1 t = (es1, t1) →
  execute_transfers calls2 t = (es2, t2) →
  Forall (λ e, e = None) es1 →
  Forall (λ e, e = None) es2 →
  calls1.*2 ≡ₚ calls2.*2 →
  t1 = t2.
Proof.
  intros Hexact1 H1 H2 Hok1 Hok2 Hperm.
  assert (Forall (λ call, at_scale5 (Amount call.2)) calls2) as Hexact2.
  { apply (Forall_fmap snd (λ req, at_scale5 (Amount req))).
    eapply Permutation_Forall; [exact Hperm|].
    by apply (Forall_fmap snd (λ req, at_scale5 (Amount req))). }
  apply map_eq. intros id.
  rewrite (execute_transfers_lookup _ _ _ _ id Hexact1 H1).
  rewrite (execute_transfers_lookup _ _ _ _ id Hexact2 H2).
  rewrite !net_changes_all_ok by eauto using execute_transfers_length.
  by rewrite (net_change_sum_permutation _ _ id Hperm).
Qed.

Lemma transfers_order_independent_witness :
  let t : gmap Z Z :=
    {[ 1 := to_column (decimal.NewFromInt 100);
       2 := to_column (decimal.NewFromInt 50);
       3 := to_column (decimal.NewFromInt 0) ]} in
  let r12 := {| SourceAccountID := 1; DestinationAccountID := 2;
                Amount := decimal.NewFromInt 30 |} in
  let r23 := {| SourceAccountID := 2; DestinationAccountID := 3;
                Amount := decimal.New 4025 (-2) |} in
  let r13 := {| SourceAccountID := 1; DestinationAccountID := 3;
                Amount := decimal.NewFromInt 70 |} in
  let calls1 := [(no_faults, r12); (no_faults, r23); (no_faults, r13)] in
  let calls2 := [(no_faults, r13); (no_faults, r12); (no_faults, r23)] in
  Forall (λ call, at_scale5 (Amount call.2)) calls1 ∧
  Forall (λ e, e = None) (execute_transfers calls1 t).1 ∧
  Forall (λ e, e = None) (execute_transfers calls2 t).1 ∧
  calls1.*2 ≡ₚ calls2.*2 ∧
  (execute_transfers calls1 t).2 = (execute_transfers calls2 t).2.
Proof.
  intros t r12 r23 r13 calls1 calls2.
  assert (Forall (λ call, at_scale5 (Amount call.2)) calls1) as H0
    by (repeat constructor).
  assert (execute_transfers calls1 t =
          ((execute_transfers calls1 t).1, (execute_transfers calls1 t).2)) as H1
    by (vm_compute; reflexivity).
  assert (execute_transfers calls2 t =
          ((execute_transfers calls2 t).1, (execute_transfers calls2 t).2)) as H2
    by (vm_compute; reflexivity).
  assert (Forall (λ e, e = None) (execute_transfers calls1 t).1) as H3
    by (vm_compute; repeat constructor).
  assert (Forall (λ e, e = None) (execute_transfers calls2 t).1) as H4
    by (vm_compute; repeat constructor).
  assert (calls1.*2 ≡ₚ calls2.*2) as H5.
  { change ([r12; r23] ++ [r13] ≡ₚ [r13] ++ [r12; r23]).
    apply Permutation_app_comm. }
  split_and!; [exact H0|exact H3|exact H4|exact H5|].
  exact (transfers_order_independent calls1 calls2 t _ _ _ _ H0 H1 H2 H3 H4 H5).
Defined.

(** X3 (there and back).  When a transfer of an amount that has no more
    than five significant fractional digits has been committed and the
    transfer of the same amount in the opposite direction is committed
    after it, the table is again what it was before the first. *)
Theorem transfer_there_and_back f1 f2 req (t t1 t2 : gmap Z Z) :
  at_scale5 (Amount req) →
  execute_transfer f1 req t = (None, t1) →
  execute_transfer f2
    {| SourceAccountID := DestinationAccountID req;
       DestinationAccountID := SourceAccountID req;
       Amount := Amount req |} t1 = (None, t2) →
  t2 = t.
Proof.
  intros Hexact H1 H2.
  apply execute_transfer_inv in H1 as [[? _]|(_ & -> & _)]; [done|].
  apply execute_transfer_inv in H2 as [[? _]|(_ & -> & _)]; [done|].
  apply map_eq. intros id. rewrite !transfer_lookup, fmap_add_add by done.
  match goal with
  | |- (λ bal, bal + ?n) <$> _ = _ => assert (n = 0) as ->
  end.
  { unfold net_change. simpl. repeat case_bool_decide; lia. }
  apply fmap_add_zero.
Qed.

Lemma transfer_there_and_back_witness :
  let t : gmap Z Z :=
    {[ 100 := to_column (decimal.NewFromInt 100);
       200 := to_column (decimal.NewFromInt 100) ]} in
  let req := {| SourceAccountID := 100; DestinationAccountID := 200;
                Amount := decimal.New 1001 (-2) |} in
  let back := {| SourceAccountID := 200; DestinationAccountID := 100;
                 Amount := decimal.New 1001 (-2) |} in
  let t1 := (execute_transfer no_faults req t).2 in
  let t2 := (execute_transfer no_faults back t1).2 in
  at_scale5 (Amount req) ∧
  execute_transfer no_faults req t = (None, t1) ∧
  execute_transfer no_faults back t1 = (None, t2) ∧
  t1 ≠ t ∧ t2 = t.
Proof.
  intros t req back t1 t2.
  assert (at_scale5 (Amount req)) as H0 by (vm_compute; reflexivity).
  assert (execute_transfer no_faults req t = (None, t1)) as H1
    by (vm_compute; reflexivity).
  assert (execute_transfer no_faults back t1 = (None, t2)) as H2
    by (vm_compute; reflexivity).
  split_and!; [exact H0|exact H1|exact H2|vm_compute; discriminate|].
  exact (transfer_there_and_back no_faults no_faults req t t1 t2 H0 H1 H2).
Defined.

Lemma no_overdraft_alter g id (t : gmap Z Z) :
  no_overdraft t →
  (∀ bal, t !! id = Some bal → 0 ≤ bal → 0 ≤ g bal) →
  no_overdraft (alter g id t).
Proof.
  intros Hno Hg j bal. destruct (decide (j = id)) as [->|Hne].
  - rewrite lookup_alter_eq. destruct (t !! id) as [b0|] eqn:Hl; [|done].
    simpl. intros [= <-]. apply Hg; [done|]. exact (Hno id b0 Hl).
  - rewrite lookup_alter_ne by done. apply Hno.
Qed.

Lemma no_overdraft_after_updates req (t : gmap Z Z) bs :
  no_overdraft t → decimal.IsNegative (Amount req) = false →
  t !! SourceAccountID req = Some bs →
  decimal.LessThan (of_column bs) (Amount req) = false →
  no_overdraft
    (update_credit (Amount req) (DestinationAccountID req)
       (update_debit (Amount req) (SourceAccountID req) t)).
Proof.
  intros Hno Hamt Hs Hle. unfold update_credit, update_debit.
  apply no_overdraft_alter.
  - apply no_overdraft_alter; [done|].
    intros bal Hl _. rewrite Hs in Hl. injection Hl as <-.
    by apply debit_nonneg.
  - intros bal _ Hbal. by apply credit_nonneg.
Qed.

(** X4 (no overdraft).  A transfer of an amount that is not negative,
    whatever the database does to it and whether it goes through or not,
    never makes a balance negative: on a table without negative balances
    it leaves a table without negative balances. *)
Theorem transfer_keeps_no_overdraft f req (t : gmap Z Z) :
  no_overdraft t →
  decimal.IsNegative (Amount req) = false →
  no_overdraft (execute_transfer f req t).2.
Proof.
  intros Hno Hamt. destruct (execute_transfer f req t) as [e t'] eqn:E.
  apply execute_transfer_inv in E as [[_ ->]|(_ & -> & bs & Hs & Hle & _)];
    [done|].
  simpl. by eapply no_overdraft_after_updates.
Qed.

Lemma transfer_keeps_no_overdraft_witness :
  let t : gmap Z Z :=
    {[ 30 := to_column (decimal.NewFromInt 50);
       40 := to_column (decimal.NewFromInt 100) ]} in
  let req := {| SourceAccountID := 30; DestinationAccountID := 40;
                Amount := decimal.NewFromInt 50 |} in
  no_overdraft t ∧ decimal.IsNegative (Amount req) = false ∧
  (execute_transfer no_faults req t).2 !! 30 = Some 0 ∧
  no_overdraft (execute_transfer no_faults req t).2.
Proof.
  intros t req.
  assert (no_overdraft t) as H1.
  { apply (bool_decide_unpack _). vm_compute. reflexivity. }
  assert (decimal.IsNegative (Amount req) = false) as H2 by reflexivity.
  split_and!; [exact H1|exact H2|vm_compute; reflexivity|].
  exact (transfer_keeps_no_overdraft no_faults req t H1 H2).
Defined.

(** X5 (accounts stay).  A transfer neither adds nor removes an account,
    whatever its outcome: the ids of the table are the same after it. *)
Theorem transfer_keeps_accounts f req (t : gmap Z Z) :
  dom (execute_transfer f req t).2 = dom t.
Proof.
  destruct (execute_transfer f req t) as [e t'] eqn:E.
  apply execute_transfer_inv in E as [[_ ->]|(_ & -> & _)]; [done|].
  simpl. unfold update_credit, update_debit. by rewrite !dom_alter_L.
Qed.


(** X7 (when a transfer goes through).  When the database refuses
    nothing, a transfer returns no error exactly when both accounts exist
    and the balance of the source is not less than the amount; the only
    errors it can then return are [ErrNotFound] and
    [ErrInsufficientFunds], the first when an account is missing even if
    the amount is too large. *)
Theorem transfer_succeeds_iff f req (t : gmap Z Z) :
  fault_free f →
  ((execute_transfer f req t).1 = None ↔
   ∃ bs, t !! SourceAccountID req = Some bs ∧
         is_Some (t !! DestinationAccountID req) ∧
         decimal.LessThan (of_column bs) (Amount req) = false) ∧
  ((execute_transfer f req t).1 = Some ErrNotFound ↔
   t !! SourceAccountID req = None ∨ t !! DestinationAccountID req = None) ∧
  ((execute_transfer f req t).1 = None ∨
   (execute_transfer f req t).1 = Some ErrNotFound ∨
   (execute_transfer f req t).1 = Some ErrInsufficientFunds).
Proof.
  intros [Hread (Hdebit & Hcredit & Hcommit)].
  rewrite (execute_transfer_read_ok f req t Hread).
  rewrite Hdebit, Hcredit, Hcommit.
  destruct (t !! SourceAccountID req) as [bs|] eqn:Hs;
    [destruct (t !! DestinationAccountID req) as [bd|] eqn:Hd|].
  - destruct (decimal.LessThan (of_column bs) (Amount req)) eqn:Hlt; simpl.
    + split_and!; [|split; [done|intros [?|?]; done]|auto].
      split; [done|]. intros (? & [= <-] & _ & ?). congruence.
    + split_and!; [|split; [done|intros [?|?]; done]|auto].
      split; [|done]. intros _. exists bs. split_and!; [done|by eexists|done].
  - simpl. split_and!; [|split; auto|auto].
    split; [done|]. by intros (? & _ & [? ?] & _).
  - simpl. split_and!; [|split; auto|auto].
    split; [done|]. by intros (? & ? & _).
Qed.

Lemma transfer_succeeds_iff_witness :
  let t : gmap Z Z :=
    {[ 30 := to_column (decimal.NewFromInt 50);
       40 := to_column (decimal.NewFromInt 100) ]} in
  let req := {| SourceAccountID := 999; DestinationAccountID := 40;
                Amount := decimal.NewFromInt 1000 |} in
  fault_free no_faults ∧
  t !! SourceAccountID req = None ∧
  (execute_transfer no_faults req t).1 = Some ErrNotFound.
Proof.
  intros t req.
  assert (fault_free no_faults) as H1 by (repeat split).
  assert (t !! SourceAccountID req = None) as H2 by (vm_compute; reflexivity).
  split_and!; [exact H1|exact H2|].
  apply (proj1 (proj2 (transfer_succeeds_iff no_faults req t H1))).
  left. exact H2.
Defined.



Lemma create_account_table refused acc (t : gmap Z Z) :
  (create_account refused acc t).2 =
  if refused then t else insert_do_nothing (AccountID acc) (Balance acc) t.
Proof. by destruct refused. Qed.

Lemma get_account_lookup id (t : gmap Z Z) :
  get_account false id t =
  match t !! id with
  | Some bal => Ok {| AccountID := id; Balance := of_column bal |}
  | None => Err ErrNotFound
  end.
Proof.
  unfold get_account, PostgresStore.GetAccount, select_balance. simpl.
  by destruct (t !! id).
Qed.

Lemma first_created_cons refused acc rest id :
  first_created ((refused, acc) :: rest) id =
  if negb refused && (AccountID acc =? id) then Some acc
  else first_created rest id.
Proof.
  unfold first_created.
  destruct refused, (Z.eqb_spec (AccountID acc) id); simpl.
  all: first [by rewrite filter_cons_True by done
             |by rewrite filter_cons_False by (simpl; intros [? ?]; done)].
Qed.

(** X9 (reading after creating).  After any sequence of creations, some of
    them refused by the database, reading an id gives the account that was
    already in the table under that id; failing that, the account of the
    first accepted creation with that id, with the balance it carried as
    the column stores it, rounded to five fractional digits; and
    [ErrNotFound] when there is neither. *)
Theorem get_after_creates calls : ∀ (t : gmap Z Z) id,
  get_account false id (create_accounts calls t) =
  match t !! id with
  | Some bal => Ok {| AccountID := id; Balance := of_column bal |}
  | None =>
      match first_created calls id with
      | Some acc =>
          Ok {| AccountID := id;
                Balance := of_column (to_column (Balance acc)) |}
      | None => Err ErrNotFound
      end
  end.
Proof.
  induction calls as [|[refused acc] rest IH]; intros t id.
  - simpl. rewrite get_account_lookup. by destruct (t !! id).
  - simpl. rewrite IH, create_account_table, first_created_cons.
    destruct refused; simpl; [done|]. unfold insert_do_nothing.
    destruct (Z.eqb_spec (AccountID acc) id) as [<-|Hne].
    + destruct (t !! AccountID acc) as [bal|] eqn:Hl.
      * by rewrite Hl.
      * by rewrite lookup_insert_eq.
    + destruct (t !! AccountID acc) as [bal|] eqn:Hl; [done|].
      by rewrite lookup_insert_ne.
Qed.

(* ===================================================================== *)
(** ** Further properties of the handlers, over [PostgresStore]          *)
(* ===================================================================== *)

(** X10 (what a transaction answer means).  When the transaction handler
    answers 200, the request was decoded, names two distinct existing
    accounts and a strictly positive amount that is not more than the
    source held; the source now holds its balance minus the amount and the
    destination its balance plus the amount, each as the column rounds it,
    which is exactly the amount less and the amount more when the amount
    has no more than five significant fractional digits; no other row has
    changed.  When it answers 400, 404 or 422, and when it answers 500
    without the commit having been refused, the table is unchanged. *)
Theorem transaction_answer_meaning sf decoded (t : gmap Z Z) :
  let out := @CreateTransactionHandler _ (PostgresStore_under sf) decoded t in
  (Code out.1 = StatusBadRequest ∨ Code out.1 = StatusNotFound ∨
   Code out.1 = StatusUnprocessableEntity → out.2 = t) ∧
  (commit_err (transfer_faults sf) = false →
   Code out.1 = StatusInternalServerError → out.2 = t) ∧
  (Code out.1 = StatusOK →
   ∃ req bs bd,
     decoded = Some req ∧
     SourceAccountID req ≠ DestinationAccountID req ∧
     decimal.IsPositive (Amount req) = true ∧
     decimal.LessThan (of_column bs) (Amount req) = false ∧
     t !! SourceAccountID req = Some bs ∧
     t !! DestinationAccountID req = Some bd ∧
     out.2 !! SourceAccountID req =
       Some (to_column (decimal.Sub (of_column bs) (Amount req))) ∧
     out.2 !! DestinationAccountID req =
       Some (to_column (decimal.Add (of_column bd) (Amount req))) ∧
     (∀ id, id ≠ SourceAccountID req → id ≠ DestinationAccountID req →
            out.2 !! id = t !! id) ∧
     (at_scale5 (Amount req) →
      out.2 !! SourceAccountID req = Some (bs - to_column (Amount req)) ∧
      out.2 !! DestinationAccountID req = Some (bd + to_column (Amount req)))).
Proof.
  unfold CreateTransactionHandler. destruct decoded as [req|]; [|done].
  destruct (Z.eqb_spec (SourceAccountID req) (DestinationAccountID req))
    as [|Hne]; [done|].
  destruct (decimal.IsPositive (Amount req)) eqn:Hpos; [|done].
  simpl. destruct (execute_transfer (transfer_faults sf) req t) as [e t'] eqn:E.
  apply execute_transfer_inv in E
    as [[He ->]|(-> & -> & bs & Hs & Hle & [bd Hd])].
  - destruct e as [[]|]; simpl; split_and!; done.
  - simpl. split_and!; [intros [?|[?|?]]; done|done|].
    intros _. exists req, bs, bd.
    assert (update_credit (Amount req) (DestinationAccountID req)
              (update_debit (Amount req) (SourceAccountID req) t)
              !! SourceAccountID req =
            Some (to_column (decimal.Sub (of_column bs) (Amount req)))) as Hs'.
    { unfold update_credit, update_debit.
      by rewrite lookup_alter_ne, lookup_alter_eq, Hs by done. }
    assert (update_credit (Amount req) (DestinationAccountID req)
              (update_debit (Amount req) (SourceAccountID req) t)
              !! DestinationAccountID req =
            Some (to_column (decimal.Add (of_column bd) (Amount req)))) as Hd'.
    { unfold update_credit, update_debit.
      by rewrite lookup_alter_eq, lookup_alter_ne, Hd by done. }
    split_and!; [done..| |].
    + intros id H1 H2. unfold update_credit, update_debit.
      by rewrite !lookup_alter_ne by done.
    + intros Hexact. rewrite Hs', Hd'.
      by rewrite debit_exact, credit_exact by done.
Qed.

Lemma transaction_answer_meaning_witness :
  let t : gmap Z Z :=
    {[ 1 := to_column (decimal.NewFromInt 1000);
       2 := to_column (decimal.NewFromInt 500) ]} in
  let req := {| SourceAccountID := 1; DestinationAccountID := 2;
                Amount := decimal.New 25025 (-2) |} in
  let out := @CreateTransactionHandler _ (PostgresStore_under no_store_faults)
               (Some req) t in
  Code out.1 = StatusOK ∧
  out.2 !! 1 = Some 74975000 ∧ out.2 !! 2 = Some 75025000 ∧
  ∃ req' bs bd,
    Some req = Some req' ∧
    SourceAccountID req' ≠ DestinationAccountID req' ∧
    decimal.IsPositive (Amount req') = true ∧
    decimal.LessThan (of_column bs) (Amount req') = false ∧
    t !! SourceAccountID req' = Some bs ∧
    t !! DestinationAccountID req' = Some bd ∧
    out.2 !! SourceAccountID req' =
      Some (to_column (decimal.Sub (of_column bs) (Amount req'))) ∧
    out.2 !! DestinationAccountID req' =
      Some (to_column (decimal.Add (of_column bd) (Amount req'))) ∧
    (∀ id, id ≠ SourceAccountID req' → id ≠ DestinationAccountID req' →
           out.2 !! id = t !! id) ∧
    (at_scale5 (Amount req') →
     out.2 !! SourceAccountID req' = Some (bs - to_column (Amount req')) ∧
     out.2 !! DestinationAccountID req' = Some (bd + to_column (Amount req'))).
Proof.
  intros t req out.
  assert (Code out.1 = StatusOK) as H by (vm_compute; reflexivity).
  split_and!; [exact H|vm_compute; reflexivity..|].
  exact (proj2 (proj2 (transaction_answer_meaning no_store_faults (Some req) t)) H).
Defined.

(** X11 (the statuses of a transaction).  When the database refuses
    nothing, the status the transaction handler answers is read off the
    request and the table: 400 for a body that does not decode, for equal
    accounts and for an amount that is not positive; otherwise 404 when an
    account is missing, 422 when the source holds less than the amount,
    and 200 in the remaining case. *)
Theorem transaction_status_table sf decoded (t : gmap Z Z) :
  fault_free (transfer_faults sf) →
  Code (@CreateTransactionHandler _ (PostgresStore_under sf) decoded t).1 =
  match decoded with
  | None => StatusBadRequest
  | Some req =>
      if (SourceAccountID req =? DestinationAccountID req)
         || negb (decimal.IsPositive (Amount req))
      then StatusBadRequest
      else match t !! SourceAccountID req, t !! DestinationAccountID req with
           | Some bs, Some _ =>
               if decimal.LessThan (of_column bs) (Amount req)
               then StatusUnprocessableEntity
               else StatusOK
           | _, _ => StatusNotFound
           end
  end.
Proof.
  intros [Hread (Hdebit & Hcredit & Hcommit)].
  unfold CreateTransactionHandler. destruct decoded as [req|]; [|done].
  destruct (SourceAccountID req =? DestinationAccountID req); [done|].
  destruct (decimal.IsPositive (Amount req)); [|done].
  simpl. rewrite (execute_transfer_read_ok _ req t Hread).
  rewrite Hdebit, Hcredit, Hcommit.
  destruct (t !! SourceAccountID req) as [bs|]; [|done].
  destruct (t !! DestinationAccountID req) as [bd|]; [|done].
  by destruct (decimal.LessThan (of_column bs) (Amount req)).
Qed.

Lemma transaction_status_table_witness :
  let t : gmap Z Z :=
    {[ 1 := to_column (decimal.NewFromInt 50);
       2 := to_column (decimal.NewFromInt 0) ]} in
  let req := {| SourceAccountID := 1; DestinationAccountID := 2;
                Amount := decimal.NewFromInt 1000 |} in
  fault_free (transfer_faults no_store_faults) ∧
  Code (@CreateTransactionHandler _ (PostgresStore_under no_store_faults)
          (Some req) t).1 = StatusUnprocessableEntity.
Proof.
  intros t req.
  assert (fault_free (transfer_faults no_store_faults)) as H by (repeat split).
  split; [exact H|].
  rewrite (transaction_status_table no_store_faults (Some req) t H).
  vm_compute. reflexivity.
Defined.

(** What the account handler leaves, whatever the other requests do
    between its two statements. *)
Lemma CreateAccountHandler_run sf (between : gmap Z Z → gmap Z Z) decoded
    (t : gmap Z Z) :
  @CreateAccountHandler _ (PostgresStore_under sf) between decoded t =
  match decoded with
  | None => (http_Error "Invalid request body" StatusBadRequest, t)
  | Some req =>
      if decimal.IsNegative (InitialBalance req)
      then (http_Error "Initial balance cannot be negative" StatusBadRequest, t)
      else if get_refused sf
      then (http_Error "Could not check for existing account"
              StatusInternalServerError, t)
      else if create_refused sf
      then (http_Error "Failed to create account" StatusInternalServerError,
            between t)
      else ({| Code := match t !! car_AccountID req with
                       | Some _ => StatusOK
                       | None => StatusCreated
                       end;
               Body := "" |},
            insert_do_nothing (car_AccountID req) (InitialBalance req)
              (between t))
  end.
Proof.
  unfold CreateAccountHandler. destruct decoded as [req|]; [|done].
  destruct (decimal.IsNegative (InitialBalance req)); [done|].
  simpl. unfold get_account, create_account, PostgresStore.GetAccount,
    PostgresStore.CreateAccount, select_balance. simpl.
  destruct (get_refused sf); simpl; [done|].
  destruct (t !! car_AccountID req) as [bal|]; simpl;
    by destruct (create_refused sf).
Qed.

(** X12 (what an account answer means).  The account handler reads the id
    and then inserts, other requests possibly writing in between.  When it
    answers 201, the initial balance is not negative and the id was not in
    the table when it was read; when it answers 200, the id was in the
    table when it was read.  In both cases the table left is the one the
    other requests made, with the account added under the balance the
    column rounds the initial balance to, if no other request had added
    the id by then; if one had, the insert did nothing, whatever the status
    says.  When it answers 400, the handler has written nothing. *)
Theorem account_answer_meaning sf (between : gmap Z Z → gmap Z Z) decoded
    (t : gmap Z Z) :
  let out := @CreateAccountHandler _ (PostgresStore_under sf) between decoded t in
  (Code out.1 = StatusCreated ∨ Code out.1 = StatusOK →
   ∃ req, decoded = Some req ∧
          decimal.IsNegative (InitialBalance req) = false ∧
          (Code out.1 = StatusCreated → t !! car_AccountID req = None) ∧
          (Code out.1 = StatusOK → is_Some (t !! car_AccountID req)) ∧
          (between t !! car_AccountID req = None →
           out.2 = <[car_AccountID req := to_column (InitialBalance req)]>
                     (between t)) ∧
          (is_Some (between t !! car_AccountID req) → out.2 = between t) ∧
          is_Some (out.2 !! car_AccountID req)) ∧
  (Code out.1 = StatusBadRequest → out.2 = t).
Proof.
  rewrite CreateAccountHandler_run. destruct decoded as [req|].
  2:{ simpl. split; [intros [?|?]; done|done]. }
  destruct (decimal.IsNegative (InitialBalance req)) eqn:Hneg.
  { simpl. split; [intros [?|?]; done|done]. }
  destruct (get_refused sf).
  { simpl. split; [intros [?|?]; done|done]. }
  destruct (create_refused sf).
  { simpl. split; [intros [?|?]; done|done]. }
  cbn [fst snd Code]. split.
  - intros _. exists req. unfold insert_do_nothing.
    split_and!; [done|done| | | | |].
    + by destruct (t !! car_AccountID req).
    + destruct (t !! car_AccountID req); [by eexists|done].
    + by intros ->.
    + by intros [bal ->].
    + destruct (between t !! car_AccountID req) eqn:Hl.
      * rewrite Hl. by eexists.
      * rewrite lookup_insert_eq. by eexists.
  - by destruct (t !! car_AccountID req).
Qed.

Lemma account_answer_meaning_witness :
  let req := {| car_AccountID := 123;
                InitialBalance := decimal.New 10050 (-2) |} in
  let other := λ t : gmap Z Z, <[123 := to_column (decimal.NewFromInt 7)]> t in
  let alone := @CreateAccountHandler _ (PostgresStore_under no_store_faults)
                 (λ t, t) (Some req) ∅ in
  let raced := @CreateAccountHandler _ (PostgresStore_under no_store_faults)
                 other (Some req) ∅ in
  (Code alone.1 = StatusCreated ∧
   alone.2 = <[123 := to_column (decimal.New 10050 (-2))]> ∅) ∧
  (Code raced.1 = StatusCreated ∧
   raced.2 = {[ 123 := to_column (decimal.NewFromInt 7) ]}).
Proof.
  intros req other alone raced.
  assert (Code alone.1 = StatusCreated) as H1 by (vm_compute; reflexivity).
  assert (Code raced.1 = StatusCreated) as H2 by (vm_compute; reflexivity).
  destruct (proj1 (account_answer_meaning no_store_faults (λ t, t) (Some req) ∅)
              (or_introl H1)) as (r1 & Hr1 & _ & _ & _ & Hfresh & _ & _).
  destruct (proj1 (account_answer_meaning no_store_faults other (Some req) ∅)
              (or_introl H2)) as (r2 & Hr2 & _ & _ & _ & _ & Htaken & _).
  injection Hr1 as <-. injection Hr2 as <-.
  split; (split; [assumption|]).
  - exact (Hfresh eq_refl).
  - apply Htaken. exists (to_column (decimal.NewFromInt 7)).
    vm_compute. reflexivity.
Defined.

(** X13 (the statuses of an account creation).  When the database refuses
    nothing, the account handler answers 400 for a body that does not
    decode and for a negative initial balance, otherwise 200 when the id
    is in the table at the time it reads it and 201 when it is not,
    whatever the other requests do after that read. *)
Theorem account_status_table sf (between : gmap Z Z → gmap Z Z) decoded
    (t : gmap Z Z) :
  get_refused sf = false → create_refused sf = false →
  Code (@CreateAccountHandler _ (PostgresStore_under sf) between decoded t).1 =
  match decoded with
  | None => StatusBadRequest
  | Some req =>
      if decimal.IsNegative (InitialBalance req) then StatusBadRequest
      else match t !! car_AccountID req with
           | Some _ => StatusOK
           | None => StatusCreated
           end
  end.
Proof.
  intros Hget Hcreate. rewrite CreateAccountHandler_run.
  destruct decoded as [req|]; [|done].
  destruct (decimal.IsNegative (InitialBalance req)); [done|].
  rewrite Hget, Hcreate. simpl. by destruct (t !! car_AccountID req).
Qed.

Lemma account_status_table_witness :
  let t : gmap Z Z := {[ 123 := to_column (decimal.NewFromInt 7) ]} in
  let req := {| car_AccountID := 123;
                InitialBalance := decimal.New 10050 (-2) |} in
  get_refused no_store_faults = false ∧ create_refused no_store_faults = false ∧
  Code (@CreateAccountHandler _ (PostgresStore_under no_store_faults)
          (λ t, t) (Some req) t).1 = StatusOK ∧
  Code (@CreateAccountHandler _ (PostgresStore_under no_store_faults)
          (λ t, t) (Some req) ∅).1 = StatusCreated.
Proof.
  intros t req. split_and!; [reflexivity..| |].
  - rewrite (account_status_table no_store_faults (λ t, t) (Some req) t
               eq_refl eq_refl).
    vm_compute. reflexivity.
  - rewrite (account_status_table no_store_faults (λ t, t) (Some req) ∅
               eq_refl eq_refl).
    vm_compute. reflexivity.
Defined.

(** X14 (reading over HTTP).  The GET handler never changes the table.  It
    writes an account only under status 200, only the account of the id in
    the path, and with the balance the table holds for it; and when the
    database answers the select, it answers 404 exactly when the id has no
    row. *)
Theorem get_answer_meaning sf encode_err idStr (t : gmap Z Z) :
  let out := @GetAccountHandler _ (PostgresStore_under sf) encode_err idStr t in
  out.2 = t ∧
  (∀ code acc, out.1 = JSON code acc →
     code = StatusOK ∧ idStr = Parsed (AccountID acc) ∧
     ∃ bal, t !! AccountID acc = Some bal ∧ Balance acc = of_column bal) ∧
  (get_refused sf = false → ∀ id, idStr = Parsed id →
     (written_code out.1 = StatusNotFound ↔ t !! id = None)).
Proof.
  unfold GetAccountHandler. destruct idStr as [| |id]; simpl; [done..|].
  unfold get_account, PostgresStore.GetAccount, select_balance. simpl.
  destruct (get_refused sf); simpl; [done|].
  destruct (t !! id) as [bal|] eqn:Hl; simpl.
  - destruct encode_err; simpl.
    + split_and!; [done..|]. intros _ id' [= <-]. by rewrite Hl.
    + split_and!; [done| |].
      * intros code acc [= <- <-]. split_and!; [done..|]. by exists bal.
      * intros _ id' [= <-]. by rewrite Hl.
  - split_and!; [done..|]. intros _ id' [= <-]. by rewrite Hl.
Qed.

Lemma get_answer_meaning_witness :
  let t : gmap Z Z := {[ 123 := to_column (decimal.New 10050 (-2)) ]} in
  let out := @GetAccountHandler _ (PostgresStore_under no_store_faults)
               false (Parsed 404) t in
  get_refused no_store_faults = false ∧
  Parsed 404 = Parsed 404 ∧ t !! 404 = None ∧
  written_code out.1 = StatusNotFound.
Proof.
  intros t out.
  assert (t !! 404 = None) as H by (vm_compute; reflexivity).
  split_and!; [reflexivity|reflexivity|exact H|].
  apply (proj2 (proj2 (get_answer_meaning no_store_faults false (Parsed 404) t))
           eq_refl 404 eq_refl).
  exact H.
Defined.

(* ===================================================================== *)
(** ** What no sequence of requests does                                 *)
(* ===================================================================== *)

Lemma CreateTransactionHandler_table sf decoded (t : gmap Z Z) :
  let t' := (@CreateTransactionHandler _ (PostgresStore_under sf) decoded t).2 in
  t' = t ∨
  ∃ req bs, decimal.IsPositive (Amount req) = true ∧
            t !! SourceAccountID req = Some bs ∧
            decimal.LessThan (of_column bs) (Amount req) = false ∧
            t' = update_credit (Amount req) (DestinationAccountID req)
                   (update_debit (Amount req) (SourceAccountID req) t).
Proof.
  unfold CreateTransactionHandler. destruct decoded as [req|]; [|by left].
  destruct (SourceAccountID req =? DestinationAccountID req); [by left|].
  destruct (decimal.IsPositive (Amount req)) eqn:Hpos; [|by left].
  simpl. destruct (execute_transfer (transfer_faults sf) req t) as [e t'] eqn:E.
  apply execute_transfer_inv in E as [[He ->]|(-> & -> & bs & Hs & Hle & _)].
  - left. by destruct e as [[]|].
  - right. by exists req, bs.
Qed.

Lemma CreateAccountHandler_table sf (between : gmap Z Z → gmap Z Z) decoded
    (t : gmap Z Z) :
  let t' :=
    (@CreateAccountHandler _ (PostgresStore_under sf) between decoded t).2 in
  t' = t ∨ t' = between t ∨
  ∃ id bal, 0 ≤ bal ∧ between t !! id = None ∧ t' = <[id := bal]> (between t).
Proof.
  rewrite CreateAccountHandler_run. destruct decoded as [req|]; [|by left].
  destruct (decimal.IsNegative (InitialBalance req)) eqn:Hneg; [by left|].
  destruct (get_refused sf); [by left|].
  destruct (create_refused sf); [right; by left|].
  simpl. unfold insert_do_nothing.
  destruct (between t !! car_AccountID req) eqn:Hl; [right; by left|].
  right. right. exists (car_AccountID req), (to_column (InitialBalance req)).
  split_and!; [|done..]. apply to_column_nonneg.
  unfold decimal.IsNegative in Hneg. lia.
Qed.

Lemma GetAccountHandler_table sf encode_err idStr (t : gmap Z Z) :
  (@GetAccountHandler _ (PostgresStore_under sf) encode_err idStr t).2 = t.
Proof.
  unfold GetAccountHandler. destruct idStr as [| |id]; simpl; [done..|].
  destruct (get_account (get_refused sf) id t) as [acc|e]; simpl.
  - by destruct encode_err.
  - by case_bool_decide.
Qed.

Lemma ServeHTTP_table sf encode_err r (t : gmap Z Z) :
  let t' := (ServeHTTP sf encode_err r t).2 in
  t' = t ∨
  (∃ id bal, 0 ≤ bal ∧ t !! id = None ∧ t' = <[id := bal]> t) ∨
  (∃ req bs, decimal.IsPositive (Amount req) = true ∧
             t !! SourceAccountID req = Some bs ∧
             decimal.LessThan (of_column bs) (Amount req) = false ∧
             t' = update_credit (Amount req) (DestinationAccountID req)
                    (update_debit (Amount req) (SourceAccountID req) t)).
Proof.
  destruct r as [decoded|idStr|decoded]; simpl.
  - pose proof (CreateAccountHandler_table sf id decoded t) as H.
    destruct (@CreateAccountHandler _ (PostgresStore_under sf) id decoded t).
    simpl in *. tauto.
  - pose proof (GetAccountHandler_table sf encode_err idStr t) as H.
    destruct (@GetAccountHandler _ (PostgresStore_under sf) encode_err idStr t).
    simpl in *. tauto.
  - pose proof (CreateTransactionHandler_table sf decoded t) as H.
    destruct (@CreateTransactionHandler _ (PostgresStore_under sf) decoded t).
    simpl in *. tauto.
Qed.

(** X15 (no overdraft over HTTP).  Whatever requests are served, in
    whatever order and whatever the database refuses along the way, a
    table without negative balances stays without negative balances: the
    handlers' checks and the funds check of the engine together keep every
    balance at zero or above. *)
Theorem requests_keep_no_overdraft rs : ∀ (t : gmap Z Z),
  no_overdraft t → no_overdraft (serve_all rs t).2.
Proof.
  induction rs as [|[[sf encode_err] r] rest IH]; intros t Hno; simpl; [done|].
  pose proof (ServeHTTP_table sf encode_err r t) as Hstep.
  destruct (ServeHTTP sf encode_err r t) as [code t1]. simpl in Hstep.
  specialize (IH t1). destruct (serve_all rest t1) as [codes t2]. simpl in *.
  apply IH.
  destruct Hstep as [->|[(id & bal & Hbal & Hfresh & ->)
                        |(req & bs & Hpos & Hs & Hle & ->)]].
  - done.
  - by apply map_Forall_insert_2.
  - eapply no_overdraft_after_updates; [done| |done..].
    unfold decimal.IsPositive, decimal.IsNegative in *. lia.
Qed.

Lemma requests_keep_no_overdraft_witness :
  let rs :=
    [(no_store_faults, false,
      POST_accounts (Some {| car_AccountID := 1;
                             InitialBalance := decimal.NewFromInt 100 |}));
     (no_store_faults, false,
      POST_accounts (Some {| car_AccountID := 2;
                             InitialBalance := decimal.NewFromInt (-5) |}));
     (no_store_faults, false,
      POST_accounts (Some {| car_AccountID := 2;
                             InitialBalance := decimal.Zero |}));
     (no_store_faults, false,
      POST_transactions (Some {| SourceAccountID := 1; DestinationAccountID := 2;
                                 Amount := decimal.New 100000001 (-6) |}));
     (no_store_faults, false,
      POST_transactions (Some {| SourceAccountID := 2; DestinationAccountID := 1;
                                 Amount := decimal.NewFromInt (-7) |}));
     (no_store_faults, false,
      POST_transactions (Some {| SourceAccountID := 1; DestinationAccountID := 2;
                                 Amount := decimal.New 99999999 (-6) |}))] in
  no_overdraft (∅ : gmap Z Z) ∧
  (serve_all rs ∅).1 = [201; 400; 201; 422; 400; 200] ∧
  no_overdraft (serve_all rs ∅).2.
Proof.
  intros rs.
  assert (no_overdraft (∅ : gmap Z Z)) as H by apply map_Forall_empty.
  split_and!; [exact H|vm_compute; reflexivity|].
  exact (requests_keep_no_overdraft rs ∅ H).
Defined.

(** X16 (accounts are never removed).  Whatever requests are served, every
    account that was in the table is still in it afterwards. *)
Theorem requests_keep_accounts rs : ∀ (t : gmap Z Z),
  dom t ⊆ dom (serve_all rs t).2.
Proof.
  induction rs as [|[[sf encode_err] r] rest IH]; intros t; simpl; [done|].
  pose proof (ServeHTTP_table sf encode_err r t) as Hstep.
  destruct (ServeHTTP sf encode_err r t) as [code t1]. simpl in Hstep.
  specialize (IH t1). destruct (serve_all rest t1) as [codes t2]. simpl in *.
  etrans; [|exact IH].
  destruct Hstep as [->|[(id & bal & _ & _ & ->)|(req & bs & _ & _ & _ & ->)]].
  - done.
  - rewrite dom_insert_L. set_solver.
  - unfold update_credit, update_debit. by rewrite !dom_alter_L.
Qed.
(* ===================================================================== *)
(** ** Start-up: the retry loop of [NewPostgresStore]                    *)
(* ===================================================================== *)

Lemma retry_loop_first_ok env : ∀ (k i n : nat) d,
  (k < n)%nat →
  (∀ j, (j < k)%nat → round_ok (env (i + j)%nat) = false) →
  round_ok (env (i + k)%nat) = true →
  retry_loop env i n d =
  {| dial_pool := Some (i + k)%nat; dial_err := false;
     slept := (slept d + k)%nat |}.
Proof.
  unfold round_ok.
  induction k as [|k IH]; intros i n d Hlt Hbad Hok;
    (destruct n as [|n]; [lia|]); simpl.
  - rewrite Nat.add_0_r in *. rewrite Hok.
    apply andb_true_iff in Hok as [Hnew%negb_true_iff _]. rewrite Hnew.
    f_equal. lia.
  - pose proof (Hbad 0%nat ltac:(lia)) as H0. rewrite Nat.add_0_r in H0.
    rewrite H0. rewrite (IH (S i) n); simpl.
    + f_equal; [f_equal|]; lia.
    + lia.
    + intros j Hj. replace (S (i + j)) with (i + S j)%nat by lia.
      apply Hbad. lia.
    + by replace (S (i + k)) with (i + S k)%nat by lia.
Qed.

Lemma retry_loop_next env (i n : nat) d :
  round_ok (env i) = false →
  retry_loop env i (S n) d =
  retry_loop env (S i) n
    {| dial_pool := if new_err (env i) then None else Some i;
       dial_err := new_err (env i); slept := S (slept d) |}.
Proof. unfold round_ok. intros H. simpl. by rewrite H. Qed.

Lemma retry_loop_all_bad env : ∀ (n i : nat) d,
  (∀ j, (j < S n)%nat → round_ok (env (i + j)%nat) = false) →
  retry_loop env i (S n) d =
  {| dial_pool := if new_err (env (i + n)%nat) then None else Some (i + n)%nat;
     dial_err := new_err (env (i + n)%nat);
     slept := (slept d + S n)%nat |}.
Proof.
  induction n as [|n IH]; intros i d Hbad.
  - pose proof (Hbad 0%nat ltac:(lia)) as H0. rewrite Nat.add_0_r in *.
    rewrite (retry_loop_next env i 0 d H0). simpl. f_equal. lia.
  - pose proof (Hbad 0%nat ltac:(lia)) as H0. rewrite Nat.add_0_r in H0.
    rewrite (retry_loop_next env i (S n) d H0). rewrite (IH (S i)).
    + simpl. replace (S (i + n)) with (i + S n)%nat by lia. f_equal. lia.
    + intros j Hj. replace (S i + j)%nat with (i + S j)%nat by lia.
      apply Hbad. lia.
Qed.

Lemma retry_loop_stop env (i n : nat) d :
  round_ok (env i) = true →
  retry_loop env i (S n) d =
  {| dial_pool := if new_err (env i) then None else Some i;
     dial_err := new_err (env i); slept := slept d |}.
Proof. unfold round_ok. intros H. simpl. by rewrite H. Qed.

Lemma retry_loop_bounds env : ∀ (n i : nat) d,
  (0 < n)%nat →
  (slept (retry_loop env i n d) ≤ slept d + n)%nat ∧
  ∃ k, (i ≤ k < i + n)%nat ∧
       dial_err (retry_loop env i n d) = new_err (env k) ∧
       dial_pool (retry_loop env i n d) =
         if new_err (env k) then None else Some k.
Proof.
  induction n as [|n IH]; intros i d Hpos; [lia|].
  destruct (round_ok (env i)) eqn:Hok.
  - rewrite (retry_loop_stop env i n d Hok). simpl.
    split; [lia|]. exists i. split; [lia|done].
  - rewrite (retry_loop_next env i n d Hok). destruct n as [|n].
    + simpl. split; [lia|]. exists i. split; [lia|done].
    + destruct (IH (S i)
        {| dial_pool := if new_err (env i) then None else Some i;
           dial_err := new_err (env i); slept := S (slept d) |}
        ltac:(lia)) as [Hs (k & Hk & He & Hp)].
      split; [|exists k; split; [lia|done]].
      etrans; [exact Hs|]. cbn [slept]. lia.
Qed.

(** X17 (the round that connects).  If round [k], one of the five, is the
    first in which the pool is made and answers the ping, the loop stops
    there after [k] sleeps of one second: the store is returned over the
    pool of that round once the schema statement is accepted, and the
    schema error is returned if it is refused. *)
Theorem NewPostgresStore_first_ok env schema_refused db (k : nat) :
  (k < 5)%nat →
  (∀ j, (j < k)%nat → round_ok (env j) = false) →
  round_ok (env k) = true →
  NewPostgresStore env schema_refused db =
  if schema_refused then (SchemaFailed, db, k)
  else (Ready (Some k), Some (default ∅ db), k).
Proof.
  intros Hk Hbad Hok. unfold NewPostgresStore.
  rewrite (retry_loop_first_ok env k 0 5 dial0 Hk Hbad Hok). simpl.
  unfold initSchema. by destruct schema_refused.
Qed.

Lemma NewPostgresStore_first_ok_witness :
  let env := λ i : nat,
    {| new_err := bool_decide (i < 2)%nat; ping_err := bool_decide (i < 3)%nat |} in
  (3 < 5)%nat ∧
  (∀ j, (j < 3)%nat → round_ok (env j) = false) ∧
  round_ok (env 3%nat) = true ∧
  NewPostgresStore env false None = (Ready (Some 3%nat), Some ∅, 3%nat).
Proof.
  intros env.
  assert (3 < 5)%nat as H1 by lia.
  assert (∀ j, (j < 3)%nat → round_ok (env j) = false) as H2.
  { intros j Hj. destruct j as [|[|[|j]]]; [reflexivity..|lia]. }
  assert (round_ok (env 3%nat) = true) as H3 by reflexivity.
  split_and!; [exact H1|exact H2|exact H3|].
  exact (NewPostgresStore_first_ok env false None 3 H1 H2 H3).
Defined.

(** X18 (five rounds without a ping).  If in none of the five rounds the
    pool is made and answers the ping, the loop has slept five seconds,
    and what is returned depends on the last round alone: the connection
    error if its pool could not be made; otherwise no connection error at
    all, although its ping failed, and the schema statement is sent over
    that pool. *)
Theorem NewPostgresStore_all_bad env schema_refused db :
  (∀ j, (j < 5)%nat → round_ok (env j) = false) →
  NewPostgresStore env schema_refused db =
  if new_err (env 4%nat) then (ConnectFailed, db, 5%nat)
  else if schema_refused then (SchemaFailed, db, 5%nat)
  else (Ready (Some 4%nat), Some (default ∅ db), 5%nat).
Proof.
  intros Hbad. unfold NewPostgresStore.
  rewrite (retry_loop_all_bad env 4 0 dial0 Hbad). simpl.
  destruct (new_err (env 4%nat)); [done|].
  unfold initSchema. by destruct schema_refused.
Qed.

Lemma NewPostgresStore_all_bad_witness :
  let env := λ _ : nat, {| new_err := false; ping_err := true |} in
  (∀ j, (j < 5)%nat → round_ok (env j) = false) ∧
  NewPostgresStore env false None = (Ready (Some 4%nat), Some ∅, 5%nat).
Proof.
  intros env.
  assert (∀ j, (j < 5)%nat → round_ok (env j) = false) as H
    by (intros j _; reflexivity).
  split; [exact H|].
  exact (NewPostgresStore_all_bad env false None H).
Defined.

(** X19 (start-up and the data).  Whatever the five rounds meet,
    [NewPostgresStore] sleeps at most five seconds and never changes the
    rows of an accounts table that is already there; when it returns the
    store, the table exists and the store holds the pool of one of the
    five rounds, one whose making reported no error; when it returns an
    error, the database is as it was. *)
Theorem NewPostgresStore_keeps_data env schema_refused db :
  let out := NewPostgresStore env schema_refused db in
  (out.2 ≤ 5)%nat ∧
  (∀ t : gmap Z Z, db = Some t → out.1.2 = Some t) ∧
  (∀ pool, out.1.1 = Ready pool →
     is_Some out.1.2 ∧
     ∃ k, pool = Some k ∧ (k < 5)%nat ∧ new_err (env k) = false) ∧
  (out.1.1 = ConnectFailed ∨ out.1.1 = SchemaFailed → out.1.2 = db).
Proof.
  unfold NewPostgresStore.
  destruct (retry_loop_bounds env 5 0 dial0 ltac:(lia)) as [Hs (k & Hk & He & Hp)].
  cbv zeta. rewrite He, Hp. change (slept dial0) with 0%nat in Hs.
  generalize dependent (slept (retry_loop env 0 5 dial0)). intros secs Hs.
  destruct (new_err (env k)) eqn:Hnew; simpl.
  - split_and!; [lia|done|done|done].
  - unfold initSchema. destruct schema_refused; simpl.
    + split_and!; [lia|done|done|done].
    + split_and!; [lia| | |].
      * by intros t ->.
      * intros pool [= <-]. split; [by eexists|]. exists k.
        split_and!; [done|lia|done].
      * intros [?|?]; done.
Qed.

Lemma NewPostgresStore_keeps_data_witness :
  let env := λ i : nat,
    {| new_err := bool_decide (i < 1)%nat; ping_err := false |} in
  let t : gmap Z Z := {[ 1 := to_column (decimal.NewFromInt 1000) ]} in
  let out := NewPostgresStore env false (Some t) in
  Some t = Some t ∧ out.1.1 = Ready (Some 1%nat) ∧
  out.1.2 = Some t ∧ is_Some out.1.2 ∧
  ∃ k, Some 1%nat = Some k ∧ (k < 5)%nat ∧ new_err (env k) = false.
Proof.
  intros env t out.
  assert (out.1.1 = Ready (Some 1%nat)) as H by reflexivity.
  pose proof (NewPostgresStore_keeps_data env false (Some t))
    as (_ & Hdata & Hready & _).
  split_and!; [reflexivity|exact H|exact (Hdata t eq_refl)|..].
  - exact (proj1 (Hready _ H)).
  - exact (proj2 (Hready _ H)).
Defined.
